(** * Lyra encode / decode drivers: a shallow embedding

    Embedded sources:
    - [encoder_main_lib.cc]: [EncodeWav], [EncodeFile];
    - [decoder_main_lib.cc]: [PacketSize], [DecodeFeatures], [DecodeFile].

    Conventions.
    - [std::vector<T>] is [list T]; a vector passed by pointer and appended
      to is threaded through explicitly (argument in, field [output] out).
    - [int16_t] samples and [int] quantities are integers in [Z].  The
      [int] product and quotient that give the encoder's stride are checked
      against the range of [int] ([int_mul], [int_div]): signed overflow is
      an abnormal end of the call, not a wrapped value.  Loop indices are
      kept exact in [Z]: the vectors are taken to be short enough for an
      [int] index, that is, the length of a vector plus one stride of its
      loop is at most [INT_MAX].  The comparison of an [int] with a
      [size_t], which converts the [int], is written out ([int_le_size],
      [int_lt_size]).
    - Log lines and the wall-clock measurements around the loops have no
      effect on the results and are left out.
    - [float] is IEEE-754 binary32, modelled by [spec_float] with
      [prec = 24] and [emax = 128].
    - The codec engine, the preprocessor and the container readers / writers
      are collaborators whose code is not part of these two files; they are
      interfaces (type classes) here, with state passed explicitly. *)

From Stdlib Require Import Strings.String.
From Stdlib Require Import ZArith List Bool Lia.
From Stdlib Require Import Floats.SpecFloat.
Import ListNotations.
Local Open Scope Z_scope.

Set Implicit Arguments.

(** ** Data model *)

Definition int16_t : Type := Z.
Definition float32 : Type := spec_float.
Definition path : Type := String.string.

(** [lyra_config.h] is not among the embedded sources: its constants and
    [GetNumSamplesPerHop] are parameters of the development. *)
Class LyraConfig : Type := {
  kNumFeatures : Z;
  kNumFramesPerPacket : Z;
  kBitrate : Z;
  kNumChannels : Z;
  GetNumSamplesPerHop : Z -> Z
}.

(** How a call can end.  [Returned b] is a normal [return b].  The other
    constructors are the abnormal ends the two files can reach. *)
Inductive exit : Type :=
| Returned (ok : bool)
| OutOfRange        (* [std::out_of_range] thrown by [vector::at] *)
| ReadPastEnd       (* a span that reaches beyond the vector it views *)
| DivisionByZero    (* integer division by zero *)
| IntegerOverflow   (* an [int] result outside the range of [int] *)
| OutOfFuel.        (* the loop index does not advance *)

(** The observable state when a pipeline call ends: how it ended, the
    accumulator the caller handed in, and the engine. *)
Record run (E A : Type) : Type := Run {
  exit_of : exit;
  output : list A;
  engine : E
}.

(** [int] converted to [size_t] (64 bits). *)
Definition to_size_t (z : Z) : Z := z mod 2 ^ 64.

(** [i <= v.size()] and [i < v.size()] for an [int i]: the [int] is
    converted to [size_t].  A negative [int] becomes at least
    [2^64 - 2^31], above every vector size (sizes are at most
    [PTRDIFF_MAX]), so the test holds exactly when [i] is non-negative and
    the mathematical comparison holds. *)
Definition int_le_size (i : Z) (size : nat) : bool :=
  (0 <=? i) && (i <=? Z.of_nat size).
Definition int_lt_size (i : Z) (size : nat) : bool :=
  (0 <=? i) && (i <? Z.of_nat size).

(** [absl::MakeConstSpan(ptr + first, len)] viewed as the elements it covers,
    for a span that lies inside the vector. *)
Definition MakeConstSpan {A : Type} (v : list A) (first len : Z) : list A :=
  firstn (Z.to_nat len) (skipn (Z.to_nat first) v).

(** The range of a 32-bit [int]. *)
Definition INT_MIN : Z := - 2 ^ 31.
Definition INT_MAX : Z := 2 ^ 31 - 1.

Definition is_int (z : Z) : bool := (INT_MIN <=? z) && (z <=? INT_MAX).

(** [int] multiplication: undefined when the product does not fit. *)
Definition int_mul (a b : Z) : option Z :=
  if is_int (a * b) then Some (a * b) else None.

(** [int] division: truncating; undefined for a zero divisor and for
    [INT_MIN / -1], whose quotient does not fit. *)
Definition int_div (a b : Z) : option Z :=
  if b =? 0 then None
  else if (a =? INT_MIN) && (b =? -1) then None
  else Some (Z.quot a b).

(** ** Collaborator interfaces *)

Module LyraEncoder.
Class Interface (E : Type) : Type := {
  Create : Z -> Z -> Z -> bool -> path -> option E;
  frame_rate : E -> Z;
  EncodeRaw : E -> list int16_t -> option (list float32) * E
}.
End LyraEncoder.

Module LyraDecoder.
Class Interface (D : Type) : Type := {
  Create : Z -> Z -> Z -> path -> option D;
  sample_rate_hz : D -> Z;
  num_channels : D -> Z;
  bitrate : D -> Z;
  frame_rate : D -> Z;
  SetEncodedFeatures : D -> list float32 -> bool * D;
  DecodeSamples : D -> Z -> option (list int16_t) * D
}.
End LyraDecoder.

Class PreprocessorInterface : Type := {
  Process : list int16_t -> Z -> list int16_t
}.

(** ** encoder_main_lib.cc *)

Section Encoder.
Context {cfg : LyraConfig} {E : Type} {enc_if : LyraEncoder.Interface E}
        {pre : PreprocessorInterface}.

(** Lines 72-73: [kNumFramesPerPacket * sample_rate_hz / encoder->frame_rate()],
    the product first.  There is a value when neither operation is
    undefined. *)
Definition encoder_samples_per_packet (sample_rate_hz : Z) (encoder : E) : option Z :=
  match int_mul kNumFramesPerPacket sample_rate_hz with
  | Some product => int_div product (LyraEncoder.frame_rate encoder)
  | None => None
  end.

(** How lines 72-73 end when they yield no value: the product overflows, or
    else the divisor is zero, or else the quotient is [INT_MIN / -1]. *)
Definition samples_per_packet_fault (sample_rate_hz : Z) (encoder : E) : exit :=
  match int_mul kNumFramesPerPacket sample_rate_hz with
  | None => IntegerOverflow
  | Some _ =>
    if LyraEncoder.frame_rate encoder =? 0 then DivisionByZero else IntegerOverflow
  end.

(** Lines 76-94, one unfolding of the [for] loop per unit of fuel. *)
Fixpoint EncodeLoop (fuel : nat) (encoder : E) (processed_data : list int16_t)
         (num_samples_per_packet wav_iterator : Z)
         (encoded_raw_features : list float32) : run E float32 :=
  match fuel with
  | O => Run OutOfFuel encoded_raw_features encoder
  | S fuel' =>
    if int_le_size (wav_iterator + num_samples_per_packet) (length processed_data)
    then
      (* [processed_data.at(wav_iterator)] *)
      if int_lt_size wav_iterator (length processed_data)
      then
        match LyraEncoder.EncodeRaw encoder
                (MakeConstSpan processed_data wav_iterator num_samples_per_packet)
        with
        | (None, encoder') => Run (Returned false) encoded_raw_features encoder'
        | (Some encoded, encoder') =>
          EncodeLoop fuel' encoder' processed_data num_samples_per_packet
                     (wav_iterator + num_samples_per_packet)
                     (encoded_raw_features ++ encoded)
        end
      else Run OutOfRange encoded_raw_features encoder
    else Run (Returned true) encoded_raw_features encoder
  end.

(** Lines 66-70. *)
Definition processed (enable_preprocessing : bool) (wav_data : list int16_t)
           (sample_rate_hz : Z) : list int16_t :=
  if enable_preprocessing then Process wav_data sample_rate_hz else wav_data.

(** Lines 45-101.  With a positive stride the loop body runs at most
    [length processed_data] times, so the fuel below is never exhausted
    (lemmas [EncodeLoop_fuel], [EncodeWav_ends]). *)
Definition EncodeWav (wav_data : list int16_t) (num_channels sample_rate_hz : Z)
           (enable_preprocessing enable_dtx : bool) (model_path : path)
           (encoded_raw_features : list float32) : run (option E) float32 :=
  match LyraEncoder.Create sample_rate_hz num_channels kBitrate enable_dtx model_path with
  | None => Run (Returned false) encoded_raw_features None
  | Some encoder =>
    let processed_data := processed enable_preprocessing wav_data sample_rate_hz in
    match encoder_samples_per_packet sample_rate_hz encoder with
    | None =>
      Run (samples_per_packet_fault sample_rate_hz encoder)
          encoded_raw_features (Some encoder)
    | Some num_samples_per_packet =>
      let r := EncodeLoop (S (length processed_data)) encoder processed_data
                          num_samples_per_packet 0 encoded_raw_features in
      Run (exit_of r) (output r) (Some (engine r))
    end
  end.


End Encoder.

(** Window number [k] of width [n]: samples [k*n .. k*n + n - 1]. *)
Definition window {A : Type} (n : nat) (data : list A) (k : nat) : list A :=
  firstn n (skipn (k * n) data).

(** The first [m] windows of width [n], in order. *)
Definition windows {A : Type} (n : nat) (data : list A) (m : nat) : list (list A) :=
  map (window n data) (seq 0 m).

(** ** decoder_main_lib.cc *)

(** *** Binary32 arithmetic used by [PacketSize] *)

Definition prec32 : Z := 24.
Definition emax32 : Z := 128.
Definition CHAR_BIT : Z := 8.

(** The implicit and explicit [int] to [float] conversions (round to nearest
    even). *)
Definition float_of_int (z : Z) : float32 := binary_normalize prec32 emax32 z 0 false.

Definition fdiv (x y : float32) : float32 := SFdiv prec32 emax32 x y.
Definition fmul (x y : float32) : float32 := SFmul prec32 emax32 x y.

(** The least integer not below [n * 2^e]. *)
Definition Zceil_scaled (n e : Z) : Z :=
  if 0 <=? e then n * 2 ^ e else - ((- n) / 2 ^ (- e)).

(** [std::ceil] on [float]: a float with a non-negative exponent is an
    integer already; otherwise the ceiling has magnitude at most [2^24] and
    converts back exactly.  The sign of a zero result is that of the
    argument. *)
Definition ceilf (x : float32) : float32 :=
  match x with
  | S754_finite s m e =>
    if 0 <=? e then x
    else
      let z := Zceil_scaled (cond_Zopp s (Zpos m)) e in
      if z =? 0 then S754_zero s else float_of_int z
  | _ => x
  end.

(** The result of [static_cast<int>] on a [float]: the value truncated
    toward zero when that fits an [int]; the conversion is undefined for
    NaN, the infinities and values out of range. *)
Inductive cast_result : Type :=
| CastValue (z : Z)
| CastUndefined.

Definition static_cast_int (x : float32) : cast_result :=
  match x with
  | S754_zero _ => CastValue 0
  | S754_finite s m e =>
    let z := cond_Zopp s (if 0 <=? e then Zpos m * 2 ^ e else Zpos m / 2 ^ (- e)) in
    if (INT_MIN <=? z) && (z <=? INT_MAX) then CastValue z else CastUndefined
  | _ => CastUndefined
  end.

Section Decoder.
Context {cfg : LyraConfig} {D : Type} {dec_if : LyraDecoder.Interface D}.

(** Lines 45-46. *)
Definition bits_per_packet (decoder : D) : float32 :=
  fmul (fdiv (float_of_int (LyraDecoder.bitrate decoder))
             (float_of_int (LyraDecoder.frame_rate decoder)))
       (float_of_int kNumFramesPerPacket).

(** Line 47. *)
Definition bytes_per_packet (decoder : D) : float32 :=
  fdiv (bits_per_packet decoder) (float_of_int CHAR_BIT).

(** Lines 44-49. *)
Definition PacketSize (decoder : D) : cast_result :=
  static_cast_int (ceilf (bytes_per_packet decoder)).

(** Lines 57-58. *)
Definition decoder_samples_per_packet (decoder : D) : Z :=
  kNumFramesPerPacket * GetNumSamplesPerHop (LyraDecoder.sample_rate_hz decoder).

(** Line 64 builds the span from a raw pointer and a length, with no test
    against the end of the vector.  The span lies inside the vector when
    this holds (a negative length, converted to [size_t], reaches beyond
    every vector).  The source makes no such test: it hands every span to
    the decoder. *)
Definition span_inside {A : Type} (v : list A) (first len : Z) : bool :=
  (0 <=? first) && (0 <=? len) && (first + len <=? Z.of_nat (length v)).

(** Lines 61-84, one unfolding of the [for] loop per unit of fuel.

    The vector determines the contents of a span only when the span lies
    inside it.  The run is described up to the first span that does not:
    there it is cut with [ReadPastEnd], which marks that such a span is
    handed to the decoder.  What the source does from that point on (it
    goes on to call the decoder with that span) depends on memory that is
    not part of the vector and is not described.  For a vector made of
    whole packets no span reaches beyond it and the run is described to
    its end. *)
Fixpoint DecodeLoop (fuel : nat) (decoder : D) (features : list float32)
         (num_samples_per_packet encoded_index : Z)
         (decoded_audio : list int16_t) : run D int16_t :=
  match fuel with
  | O => Run OutOfFuel decoded_audio decoder
  | S fuel' =>
    if int_lt_size encoded_index (length features)
    then
      if span_inside features encoded_index kNumFeatures
      then
        match LyraDecoder.SetEncodedFeatures decoder
                (MakeConstSpan features encoded_index kNumFeatures)
        with
        | (false, decoder') => Run (Returned false) decoded_audio decoder'
        | (true, decoder') =>
          match LyraDecoder.DecodeSamples decoder' num_samples_per_packet with
          | (None, decoder'') => Run (Returned false) decoded_audio decoder''
          | (Some decoded, decoder'') =>
            DecodeLoop fuel' decoder'' features num_samples_per_packet
                       (encoded_index + kNumFeatures)
                       (decoded_audio ++ decoded)
          end
        end
      else Run ReadPastEnd decoded_audio decoder
    else Run (Returned true) decoded_audio decoder
  end.

(** Lines 53-91.  [packet_loss_rate] and [average_burst_length] are
    parameters of the function, as in the source.  With a positive
    [kNumFeatures] the fuel is never exhausted (lemma [DecodeFeatures_ends]). *)
Definition DecodeFeatures (features : list float32)
           (packet_loss_rate average_burst_length : float32)
           (decoder : D) (decoded_audio : list int16_t) : run D int16_t :=
  DecodeLoop (S (length features)) decoder features
             (decoder_samples_per_packet decoder) 0 decoded_audio.

(** The decoder fed a list of packets one after the other, every
    [SetEncodedFeatures] and [DecodeSamples] call succeeding. *)
Inductive Decodes (n : Z) : D -> list (list float32) -> list (list int16_t) -> D -> Prop :=
| Decodes_nil : forall d, Decodes n d [] [] d
| Decodes_cons : forall d p d1 s d2 ps ss d3,
    LyraDecoder.SetEncodedFeatures d p = (true, d1) ->
    LyraDecoder.DecodeSamples d1 n = (Some s, d2) ->
    Decodes n d2 ps ss d3 ->
    Decodes n d (p :: ps) (s :: ss) d3.


End Decoder.

(** ** File orchestration *)

Record ReadWavResult : Type := {
  samples : list int16_t;
  num_channels : Z;
  sample_rate_hz : Z
}.

(** The container readers and writers ([wav_util.h], [cnpy.h]).
    [Read16BitWavFileToVector] answers [None] for an error status;
    [Write16BitWavFileFromVector] answers whether the status is ok;
    [npz_load] answers the shape and the flat data of the named array. *)
Class ContainerIO : Type := {
  Read16BitWavFileToVector : path -> option ReadWavResult;
  Write16BitWavFileFromVector : path -> Z -> Z -> list int16_t -> bool;
  npz_load : path -> String.string -> list Z * list float32
}.

(** The collaborator calls a file-level operation makes, in program order. *)
Inductive event : Type :=
| EvCreateEngine
| EvReadWav (p : path)
| EvWriteWav (p : path) (num_channels sample_rate_hz : Z) (data : list int16_t)
| EvNpzLoad (p : path) (key : String.string)
| EvNpzSave (p : path) (key : String.string) (data : list float32) (shape : list Z).

Definition is_container_io (ev : event) : bool :=
  match ev with
  | EvCreateEngine => false
  | _ => true
  end.

Section Files.
Context {cfg : LyraConfig} {io : ContainerIO}.

(** [EncodeFile], lines 103-131.  [EncodeWav] calls [LyraEncoder::Create]
    as its first statement (line 49) and makes no other collaborator call
    that is recorded here. *)
Definition EncodeFile {E : Type} {enc_if : LyraEncoder.Interface E}
           {pre : PreprocessorInterface}
           (wav_path output_path : path)
           (enable_preprocessing enable_dtx : bool) (model_path : path)
  : exit * list event :=
  match Read16BitWavFileToVector wav_path with
  | None => (Returned false, [EvReadWav wav_path])
  | Some read_wav_result =>
    let r := EncodeWav (samples read_wav_result) (num_channels read_wav_result)
                       (sample_rate_hz read_wav_result) enable_preprocessing
                       enable_dtx model_path [] in
    let trace := [EvReadWav wav_path; EvCreateEngine] in
    match exit_of r with
    | Returned true =>
      if to_size_t kNumFeatures =? 0 then (DivisionByZero, trace)
      else
        let num_frames := Z.of_nat (length (output r)) / to_size_t kNumFeatures in
        (Returned true,
         trace ++ [EvNpzSave output_path "features"%string (output r)
                             [num_frames; to_size_t kNumFeatures]])
    | other => (other, trace)
    end
  end.

(** [DecodeFile], lines 93-126.  The shape print-out on [std::cout] is
    not a container access and is left out. *)
Definition DecodeFile {D : Type} {dec_if : LyraDecoder.Interface D}
           (encoded_path output_path : path) (sample_rate : Z)
           (packet_loss_rate average_burst_length : float32) (model_path : path)
  : exit * list event :=
  match LyraDecoder.Create sample_rate kNumChannels kBitrate model_path with
  | None => (Returned false, [EvCreateEngine])
  | Some decoder =>
    let loaded_features := npz_load encoded_path "features"%string in
    let r := DecodeFeatures (snd loaded_features) packet_loss_rate
                            average_burst_length decoder [] in
    let trace := [EvCreateEngine; EvNpzLoad encoded_path "features"%string] in
    match exit_of r with
    | Returned true =>
      let nc := LyraDecoder.num_channels (engine r) in
      let sr := LyraDecoder.sample_rate_hz (engine r) in
      (Returned (Write16BitWavFileFromVector output_path nc sr (output r)),
       trace ++ [EvWriteWav output_path nc sr (output r)])
    | other => (other, trace)
    end
  end.

End Files.

(** *** Reference quantities *)

(** The least integer not below [a / b], for a positive [b]. *)
Definition ceil_div (a b : Z) : Z := - ((- a) / b).

(** The packet size as the specification words it:
    [ceil(B * K / (F * 8))]. *)
Definition exact_packet_size (B F K : Z) : Z := ceil_div (B * K) (F * 8).

(** A 24-bit mantissa. *)
Definition normal (m : positive) : Prop := 2 ^ 23 <= Zpos m < 2 ^ 24.

(** NaN and the infinities. *)
Definition nonfinite (x : float32) : Prop :=
  match x with
  | S754_nan | S754_infinity _ => True
  | _ => False
  end.

(** The second half of [binary_round_aux]: renormalising the rounded
    mantissa. *)
Definition round_finish (s : bool) (mr e : Z) : spec_float :=
  let '(mrs, e') := shr_fexp prec32 emax32 mr e loc_Exact in
  match shr_m mrs with
  | Z0 => S754_zero s
  | Zpos m => if e' <=? emax32 - prec32 then S754_finite s m e' else S754_infinity s
  | Zneg _ => S754_nan
  end.

(** ** Concrete collaborators, used to run the model on examples *)

Module Fixture.

Definition zero32 : float32 := S754_zero false.

(** A small configuration, by its features and frames per packet. *)
Definition config (features_per_packet frames_per_packet : Z) : LyraConfig :=
  {| kNumFeatures := features_per_packet;
     kNumFramesPerPacket := frames_per_packet;
     kBitrate := 3000;
     kNumChannels := 1;
     GetNumSamplesPerHop := fun sample_rate => sample_rate / 50 |}.

(** A scripted encoder.  Its state is the number of [EncodeRaw] calls made
    so far; call number [fail_at] (from zero) fails, every other call
    answers a packet of two zeros. *)
Definition encoder (create_ok : bool) (rate : Z) (fail_at : option nat)
  : LyraEncoder.Interface nat :=
  {| LyraEncoder.Create := fun _ _ _ _ _ => if create_ok then Some O else None;
     LyraEncoder.frame_rate := fun _ => rate;
     LyraEncoder.EncodeRaw := fun calls _ =>
       (match fail_at with
        | Some k => if Nat.eqb k calls then None else Some [zero32; zero32]
        | None => Some [zero32; zero32]
        end, S calls) |}.

(** A scripted decoder.  Its state is the number of packets it was handed
    so far; [SetEncodedFeatures] fails on packet number [fail_set_at],
    [DecodeSamples] fails on packet number [fail_decode_at], every other
    call succeeds and [DecodeSamples n] answers [n] zero samples. *)
Definition decoder (create_ok : bool) (rate_hz bit_rate frames_per_second : Z)
           (fail_set_at fail_decode_at : option nat)
  : LyraDecoder.Interface nat :=
  {| LyraDecoder.Create := fun _ _ _ _ => if create_ok then Some O else None;
     LyraDecoder.sample_rate_hz := fun _ => rate_hz;
     LyraDecoder.num_channels := fun _ => 1;
     LyraDecoder.bitrate := fun _ => bit_rate;
     LyraDecoder.frame_rate := fun _ => frames_per_second;
     LyraDecoder.SetEncodedFeatures := fun calls _ =>
       (match fail_set_at with
        | Some k => negb (Nat.eqb k calls)
        | None => true
        end, calls);
     LyraDecoder.DecodeSamples := fun calls n =>
       (match fail_decode_at with
        | Some k => if Nat.eqb k calls then None else Some (repeat 0 (Z.to_nat n))
        | None => Some (repeat 0 (Z.to_nat n))
        end, S calls) |}.

(** A decoder whose state is its configuration: the pair of its bit rate
    and its frame rate.  Its calls always succeed. *)
Definition configured_decoder : LyraDecoder.Interface (Z * Z) :=
  {| LyraDecoder.Create := fun _ _ bit_rate _ => Some (bit_rate, 50);
     LyraDecoder.sample_rate_hz := fun _ => 150;
     LyraDecoder.num_channels := fun _ => 1;
     LyraDecoder.bitrate := fun d => fst d;
     LyraDecoder.frame_rate := fun d => snd d;
     LyraDecoder.SetEncodedFeatures := fun d _ => (true, d);
     LyraDecoder.DecodeSamples := fun d n => (Some (repeat 0 (Z.to_nat n)), d) |}.

(** The preprocessor that hands its input back. *)
Definition identity_preprocessor : PreprocessorInterface :=
  {| Process := fun wav _ => wav |}.

(** Containers: every audio file holds six zero samples at 150 Hz, every
    feature file holds two packets. *)
Definition containers : ContainerIO :=
  {| Read16BitWavFileToVector := fun _ =>
       Some {| samples := repeat 0 6; num_channels := 1; sample_rate_hz := 150 |};
     Write16BitWavFileFromVector := fun _ _ _ _ => true;
     npz_load := fun _ _ => ([2; 2], repeat zero32 4) |}.

(** Containers whose audio reader fails and whose audio writer reports an
    error; every feature file holds two packets. *)
Definition failing_containers : ContainerIO :=
  {| Read16BitWavFileToVector := fun _ => None;
     Write16BitWavFileFromVector := fun _ _ _ _ => false;
     npz_load := fun _ _ => ([2; 2], repeat zero32 4) |}.

End Fixture.

(** * Properties *)

Unset Implicit Arguments.

(** ** Lists and windows *)









Lemma MakeConstSpan_window {A : Type} (n : nat) (data : list A) (k : nat) :
  MakeConstSpan data (Z.of_nat (k * n)) (Z.of_nat n) = window n data k.
Proof. unfold MakeConstSpan, window. now rewrite !Nat2Z.id. Qed.

(** ** The encode loop *)

Section EncoderFacts.
Context {cfg : LyraConfig} {E : Type} {enc_if : LyraEncoder.Interface E}
        {pre : PreprocessorInterface}.

Lemma EncodeLoop_step_ok fuel e data (n j : nat) out p e' :
  (j * n + n <= length data)%nat -> (0 < n)%nat ->
  LyraEncoder.EncodeRaw e (window n data j) = (Some p, e') ->
  EncodeLoop (S fuel) e data (Z.of_nat n) (Z.of_nat (j * n)) out
  = EncodeLoop fuel e' data (Z.of_nat n) (Z.of_nat (S j * n)) (out ++ p).
Proof.
  intros Hfit Hn Hraw. simpl EncodeLoop.
  unfold int_le_size, int_lt_size.
  replace (0 <=? Z.of_nat (j * n) + Z.of_nat n) with true by (symmetry; apply Z.leb_le; lia).
  replace (Z.of_nat (j * n) + Z.of_nat n <=? Z.of_nat (length data)) with true
    by (symmetry; apply Z.leb_le; lia).
  replace (0 <=? Z.of_nat (j * n)) with true by (symmetry; apply Z.leb_le; lia).
  replace (Z.of_nat (j * n) <? Z.of_nat (length data)) with true
    by (symmetry; apply Z.ltb_lt; lia).
  simpl. rewrite MakeConstSpan_window, Hraw.
  f_equal. lia.
Qed.

Lemma EncodeLoop_step_fail fuel e data (n j : nat) out e' :
  (j * n + n <= length data)%nat -> (0 < n)%nat ->
  LyraEncoder.EncodeRaw e (window n data j) = (None, e') ->
  EncodeLoop (S fuel) e data (Z.of_nat n) (Z.of_nat (j * n)) out
  = Run (Returned false) out e'.
Proof.
  intros Hfit Hn Hraw. simpl EncodeLoop.
  unfold int_le_size, int_lt_size.
  replace (0 <=? Z.of_nat (j * n) + Z.of_nat n) with true by (symmetry; apply Z.leb_le; lia).
  replace (Z.of_nat (j * n) + Z.of_nat n <=? Z.of_nat (length data)) with true
    by (symmetry; apply Z.leb_le; lia).
  replace (0 <=? Z.of_nat (j * n)) with true by (symmetry; apply Z.leb_le; lia).
  replace (Z.of_nat (j * n) <? Z.of_nat (length data)) with true
    by (symmetry; apply Z.ltb_lt; lia).
  simpl. now rewrite MakeConstSpan_window, Hraw.
Qed.

Lemma EncodeLoop_step_end fuel e data (n j : nat) out :
  (length data < j * n + n)%nat ->
  EncodeLoop (S fuel) e data (Z.of_nat n) (Z.of_nat (j * n)) out
  = Run (Returned true) out e.
Proof.
  intros Hout. simpl EncodeLoop. unfold int_le_size.
  replace (Z.of_nat (j * n) + Z.of_nat n <=? Z.of_nat (length data)) with false
    by (symmetry; apply Z.leb_gt; lia).
  now rewrite andb_false_r.
Qed.



(** The accumulator only grows. *)
Lemma EncodeLoop_extends fuel : forall e data n i out,
  exists new, output (EncodeLoop fuel e data n i out) = out ++ new.
Proof.
  induction fuel as [|fuel IH]; intros e data n i out; simpl.
  - exists []. now rewrite app_nil_r.
  - destruct (int_le_size _ _); [|exists []; now rewrite app_nil_r].
    destruct (int_lt_size _ _); [|exists []; now rewrite app_nil_r].
    destruct (LyraEncoder.EncodeRaw _ _) as [[p|] e'].
    + destruct (IH e' data n (i + n) (out ++ p)) as [new Hnew].
      exists (p ++ new). now rewrite Hnew, app_assoc.
    + exists []. now rewrite app_nil_r.
Qed.

(** With a positive stride the loop ends before [length data - i + 1]
    iterations. *)
Lemma EncodeLoop_fuel fuel : forall e data n i out,
  0 < n -> 0 <= i ->
  Z.max 0 (Z.of_nat (length data) - i) < Z.of_nat fuel ->
  exit_of (EncodeLoop fuel e data n i out) <> OutOfFuel.
Proof.
  induction fuel as [|fuel IH]; intros e data n i out Hn Hi Hfuel; [lia|].
  simpl. unfold int_le_size, int_lt_size.
  destruct (Z.leb_spec 0 (i + n)) as [_|Hbad]; [|lia].
  destruct (Z.leb_spec (i + n) (Z.of_nat (length data))) as [Hfit|_];
    [|simpl; discriminate].
  destruct (Z.leb_spec 0 i) as [_|Hbad]; [|lia].
  destruct (Z.ltb_spec i (Z.of_nat (length data))) as [_|Hbad]; [|lia].
  simpl. destruct (LyraEncoder.EncodeRaw _ _) as [[p|] e']; [|simpl; discriminate].
  apply IH; lia.
Qed.

End EncoderFacts.

(** ** The decode loop *)

Section DecoderFacts.
Context {cfg : LyraConfig} {D : Type} {dec_if : LyraDecoder.Interface D}.

(** The tests of one loop iteration at packet [j] of a vector that holds
    it completely. *)
Lemma packet_inside (features : list float32) (k j : nat) :
  (0 < k)%nat -> (j * k + k <= length features)%nat ->
  int_lt_size (Z.of_nat (j * k)) (length features) = true /\
  span_inside features (Z.of_nat (j * k)) (Z.of_nat k) = true.
Proof.
  intros Hk Hfit. unfold int_lt_size, span_inside. split.
  - apply andb_true_intro; split; [apply Z.leb_le | apply Z.ltb_lt]; lia.
  - repeat (apply andb_true_intro; split); apply Z.leb_le; lia.
Qed.

Lemma DecodeLoop_step_ok fuel d features n (k j : nat) out d1 s d2 :
  kNumFeatures = Z.of_nat k -> (0 < k)%nat ->
  (j * k + k <= length features)%nat ->
  LyraDecoder.SetEncodedFeatures d (window k features j) = (true, d1) ->
  LyraDecoder.DecodeSamples d1 n = (Some s, d2) ->
  DecodeLoop (S fuel) d features n (Z.of_nat (j * k)) out
  = DecodeLoop fuel d2 features n (Z.of_nat (S j * k)) (out ++ s).
Proof.
  intros Hk Hpos Hfit Hset Hdec. simpl DecodeLoop. rewrite Hk.
  destruct (packet_inside features k j Hpos Hfit) as [-> ->].
  rewrite MakeConstSpan_window, Hset, Hdec. f_equal. lia.
Qed.



(** A trailing packet that is started but not complete. *)
Lemma DecodeLoop_step_partial fuel d features n (k j : nat) out :
  kNumFeatures = Z.of_nat k ->
  (j * k < length features)%nat -> (length features < j * k + k)%nat ->
  DecodeLoop (S fuel) d features n (Z.of_nat (j * k)) out
  = Run ReadPastEnd out d.
Proof.
  intros Hk Hin Hout. simpl DecodeLoop. rewrite Hk.
  unfold int_lt_size, span_inside.
  replace (0 <=? Z.of_nat (j * k)) with true by (symmetry; apply Z.leb_le; lia).
  replace (Z.of_nat (j * k) <? Z.of_nat (length features)) with true
    by (symmetry; apply Z.ltb_lt; lia).
  replace (Z.of_nat (j * k) + Z.of_nat k <=? Z.of_nat (length features)) with false
    by (symmetry; apply Z.leb_gt; lia).
  now rewrite andb_false_r.
Qed.

(** Running the loop over [count] packets the decoder accepts. *)
Lemma DecodeLoop_decodes features n (k : nat) :
  kNumFeatures = Z.of_nat k -> (0 < k)%nat ->
  forall count j d ss d' fuel out,
    ((j + count) * k <= length features)%nat ->
    Decodes n d (map (window k features) (seq j count)) ss d' ->
    DecodeLoop (count + fuel) d features n (Z.of_nat (j * k)) out
    = DecodeLoop fuel d' features n (Z.of_nat ((j + count) * k))
                 (out ++ concat ss).
Proof.
  intros Hk Hpos. induction count as [|count IH]; intros j d ss d' fuel out Hfit Hrun.
  - inversion Hrun; subst. simpl. rewrite app_nil_r, Nat.add_0_r. reflexivity.
  - simpl seq in Hrun. simpl map in Hrun.
    inversion Hrun as [|? ? d1 s d2 ? ss' ? Hset Hdec Hrest]; subst.
    change (S count + fuel)%nat with (S (count + fuel)).
    rewrite DecodeLoop_step_ok with (k := k) (d1 := d1) (s := s) (d2 := d2)
      by (try assumption; nia).
    rewrite IH with (ss := ss') (d' := d') by (try assumption; nia).
    simpl concat. rewrite app_assoc.
    replace (S j + count)%nat with (j + S count)%nat by lia. reflexivity.
Qed.



Lemma DecodeLoop_extends fuel : forall d features n i out,
  exists new, output (DecodeLoop fuel d features n i out) = out ++ new.
Proof.
  induction fuel as [|fuel IH]; intros d features n i out; simpl.
  - exists []. now rewrite app_nil_r.
  - destruct (int_lt_size _ _); [|exists []; now rewrite app_nil_r].
    destruct (span_inside _ _ _); [|exists []; now rewrite app_nil_r].
    destruct (LyraDecoder.SetEncodedFeatures _ _) as [[|] d1];
      [|exists []; now rewrite app_nil_r].
    destruct (LyraDecoder.DecodeSamples _ _) as [[s|] d2].
    + destruct (IH d2 features n (i + kNumFeatures) (out ++ s)) as [new Hnew].
      exists (s ++ new). now rewrite Hnew, app_assoc.
    + exists []. now rewrite app_nil_r.
Qed.

(** With a positive packet width the loop ends before
    [length features - i + 1] iterations. *)
Lemma DecodeLoop_fuel fuel : forall d features n i out,
  0 < kNumFeatures -> 0 <= i ->
  Z.max 0 (Z.of_nat (length features) - i) < Z.of_nat fuel ->
  exit_of (DecodeLoop fuel d features n i out) <> OutOfFuel.
Proof.
  induction fuel as [|fuel IH]; intros d features n i out Hk Hi Hfuel; [lia|].
  simpl. unfold int_lt_size.
  destruct (Z.leb_spec 0 i) as [_|Hbad]; [|lia].
  destruct (Z.ltb_spec i (Z.of_nat (length features))) as [Hin|_];
    [|simpl; discriminate].
  simpl. destruct (span_inside _ _ _); [|simpl; discriminate].
  destruct (LyraDecoder.SetEncodedFeatures _ _) as [[|] d1]; [|simpl; discriminate].
  destruct (LyraDecoder.DecodeSamples _ _) as [[s|] d2]; [|simpl; discriminate].
  apply IH; lia.
Qed.

(** [DecodeFeatures] always ends when the packet width is positive. *)
Lemma DecodeFeatures_ends features plr abl decoder out :
  0 < kNumFeatures ->
  exit_of (DecodeFeatures features plr abl decoder out) <> OutOfFuel.
Proof.
  intros Hk. unfold DecodeFeatures. apply DecodeLoop_fuel; [exact Hk | lia | lia].
Qed.



End DecoderFacts.

(** ** Whole calls of [EncodeWav] *)

Section EncodeWavFacts.
Context {cfg : LyraConfig} {E : Type} {enc_if : LyraEncoder.Interface E}
        {pre : PreprocessorInterface}.


(** [EncodeWav] always ends when the stride it computes is positive. *)
Lemma EncodeWav_ends wav nc sr ep dtx mp out encoder n :
  LyraEncoder.Create sr nc kBitrate dtx mp = Some encoder ->
  encoder_samples_per_packet sr encoder = Some n -> 0 < n ->
  exit_of (EncodeWav wav nc sr ep dtx mp out) <> OutOfFuel.
Proof.
  intros Hcreate Hn Hpos. unfold EncodeWav. rewrite Hcreate, Hn.
  cbv zeta. unfold exit_of at 1. apply EncodeLoop_fuel; lia.
Qed.



End EncodeWavFacts.

(** ** The claims about the two pipelines *)







(** C1.  What the code does on a vector whose length is not a multiple of
    [kNumFeatures]: no length test is made before the loop; with a decoder
    that accepts everything the [m] complete packets are decoded and
    appended, and the next span, built although only [r < kNumFeatures]
    values remain, reaches beyond the vector.  The call does not return
    [false]. *)
Theorem DecodeFeatures_partial_packet_reads_past_end
        {cfg : LyraConfig} {D : Type} {dec_if : LyraDecoder.Interface D}
        features plr abl decoder out (m r : Z) :
  0 <= m -> 0 < r < kNumFeatures ->
  Z.of_nat (length features) = m * kNumFeatures + r ->
  (forall d p, exists d1, LyraDecoder.SetEncodedFeatures d p = (true, d1)) ->
  (forall d, exists s d2,
      LyraDecoder.DecodeSamples d (decoder_samples_per_packet decoder) = (Some s, d2)) ->
  exists ss d',
    Decodes (decoder_samples_per_packet decoder) decoder
            (windows (Z.to_nat kNumFeatures) features (Z.to_nat m)) ss d' /\
    DecodeFeatures features plr abl decoder out
    = Run ReadPastEnd (out ++ concat ss) d'.
Proof.
  intros Hm Hr Hlen Hset Hdec.
  set (k := Z.to_nat kNumFeatures).
  set (n := decoder_samples_per_packet decoder) in *.
  assert (Hk : kNumFeatures = Z.of_nat k) by (unfold k; lia).
  assert (Htot : forall ps d, exists ss d', Decodes n d ps ss d').
  { induction ps as [|p ps IH]; intros d.
    - exists [], d. constructor.
    - destruct (Hset d p) as (d1 & H1). destruct (Hdec d1) as (s & d2 & H2).
      destruct (IH d2) as (ss & d3 & H3). exists (s :: ss), d3.
      econstructor; eassumption. }
  destruct (Htot (windows k features (Z.to_nat m)) decoder) as (ss & d' & Hrun).
  exists ss, d'. split; [exact Hrun|].
  unfold DecodeFeatures. fold n.
  replace (S (length features))
    with (Z.to_nat m + S (length features - Z.to_nat m))%nat by nia.
  change 0 with (Z.of_nat (0 * k)).
  rewrite DecodeLoop_decodes with (k := k) (ss := ss) (d' := d')
    by (try assumption; simpl; nia).
  apply DecodeLoop_step_partial with (k := k); [exact Hk | simpl; nia | simpl; nia].
Qed.

(** Three features with two per packet: one packet is decoded, then the
    second span covers index 3 of a three-element vector. *)
Lemma DecodeFeatures_partial_packet_reads_past_end_witness :
  exists ss d',
    Decodes (dec_if := Fixture.decoder true 150 3000 50 None None) 3 O
            (windows 2 (repeat Fixture.zero32 3) 1) ss d' /\
    DecodeFeatures (cfg := Fixture.config 2 1)
                   (dec_if := Fixture.decoder true 150 3000 50 None None)
                   (repeat Fixture.zero32 3) Fixture.zero32 Fixture.zero32 O []
    = Run ReadPastEnd ([] ++ concat ss) d'.
Proof.
  apply (DecodeFeatures_partial_packet_reads_past_end (cfg := Fixture.config 2 1)
           (dec_if := Fixture.decoder true 150 3000 50 None None)
           (repeat Fixture.zero32 3) Fixture.zero32 Fixture.zero32 O [] 1 1).
  - lia.
  - simpl. lia.
  - reflexivity.
  - intros d p. exists d. reflexivity.
  - intros d. exists [0; 0; 0], (S d). reflexivity.
Defined.

(** The same run, evaluated. *)
Example DecodeFeatures_three_features :
  DecodeFeatures (cfg := Fixture.config 2 1)
                 (dec_if := Fixture.decoder true 150 3000 50 None None)
                 (repeat Fixture.zero32 3) Fixture.zero32 Fixture.zero32 O []
  = Run ReadPastEnd [0; 0; 0] 1%nat.
Proof. reflexivity. Qed.

(** C9.  Two calls that differ only in [packet_loss_rate] and
    [average_burst_length] end the same way, with the same accumulator and
    the same decoder state. *)
Theorem DecodeFeatures_ignores_loss_parameters
        {cfg : LyraConfig} {D : Type} {dec_if : LyraDecoder.Interface D}
        features (rate1 burst1 rate2 burst2 : float32) (decoder : D) out :
  DecodeFeatures features rate1 burst1 decoder out
  = DecodeFeatures features rate2 burst2 decoder out.
Proof. reflexivity. Qed.

(** C10.  Whatever the inputs and however the call ends, the accumulator of
    [EncodeWav] and of [DecodeFeatures] afterwards is the accumulator handed
    in, unchanged and in order, followed by the newly produced values.  The
    same holds after any number of iterations of either loop, started at
    any index. *)
Theorem accumulators_are_only_appended_to
        {cfg : LyraConfig} {E D : Type} {enc_if : LyraEncoder.Interface E}
        {dec_if : LyraDecoder.Interface D} {pre : PreprocessorInterface} :
  (forall wav nc sr ep dtx mp (out : list float32),
      exists new, output (EncodeWav wav nc sr ep dtx mp out) = out ++ new) /\
  (forall features plr abl (decoder : D) (out : list int16_t),
      exists new, output (DecodeFeatures features plr abl decoder out) = out ++ new) /\
  (forall fuel (encoder : E) data n i (out : list float32),
      exists new, output (EncodeLoop fuel encoder data n i out) = out ++ new) /\
  (forall fuel (decoder : D) features n i (out : list int16_t),
      exists new, output (DecodeLoop fuel decoder features n i out) = out ++ new).
Proof.
  split; [|split; [|split]].
  - intros wav nc sr ep dtx mp out. unfold EncodeWav.
    destruct (LyraEncoder.Create _ _ _ _ _) as [encoder|];
      [|exists []; simpl; now rewrite app_nil_r].
    destruct (encoder_samples_per_packet _ _) as [n|];
      [|exists []; simpl; now rewrite app_nil_r].
    cbv beta zeta. unfold output at 1. apply EncodeLoop_extends.
  - intros features plr abl decoder out. apply DecodeLoop_extends.
  - intros fuel encoder data n i out. apply EncodeLoop_extends.
  - intros fuel decoder features n i out. apply DecodeLoop_extends.
Qed.



(** ** Order of engine construction and container access *)

(** C8, as stated, fails for the encode direction: with an engine that
    cannot be constructed, [EncodeFile] has read the audio container before
    the construction is attempted. *)
Lemma EncodeFile_reads_before_construction :
  let r := EncodeFile (cfg := Fixture.config 2 1) (io := Fixture.containers)
                      (enc_if := Fixture.encoder false 50 None)
                      (pre := Fixture.identity_preprocessor)
                      "in.wav"%string "out.npz"%string false false "model"%string in
  r = (Returned false, [EvReadWav "in.wav"%string; EvCreateEngine]) /\
  ~ (forall ev, In ev (snd r) -> is_container_io ev = false).
Proof.
  split; [reflexivity|].
  intros H. specialize (H (EvReadWav "in.wav"%string) (or_introl eq_refl)).
  discriminate H.
Qed.

(** C8, amended.  [DecodeFile] attempts the construction before anything
    else, and when it fails returns [false] with no container access.
    [EncodeFile] reads the audio container first (the engine is constructed
    from the sample rate and channel count read from it); the construction
    is its next step, before any feature matrix is written, and when it
    fails the call returns [false] with the read as its only container
    access. *)
Theorem construction_failure_precedes_output
        {cfg : LyraConfig} {io : ContainerIO} {E D : Type}
        {enc_if : LyraEncoder.Interface E} {dec_if : LyraDecoder.Interface D}
        {pre : PreprocessorInterface} :
  (forall encoded_path output_path sample_rate plr abl model_path,
      (exists rest,
          snd (DecodeFile (D := D) encoded_path output_path sample_rate plr abl model_path)
          = EvCreateEngine :: rest) /\
      (LyraDecoder.Create (D := D) sample_rate kNumChannels kBitrate model_path = None ->
       DecodeFile (D := D) encoded_path output_path sample_rate plr abl model_path
       = (Returned false, [EvCreateEngine])))
  /\
  (forall wav_path output_path ep dtx model_path,
      (snd (EncodeFile (E := E) wav_path output_path ep dtx model_path)
       = [EvReadWav wav_path] \/
       exists rest,
         snd (EncodeFile (E := E) wav_path output_path ep dtx model_path)
         = EvReadWav wav_path :: EvCreateEngine :: rest) /\
      (forall read_wav_result,
          Read16BitWavFileToVector wav_path = Some read_wav_result ->
          LyraEncoder.Create (E := E) (sample_rate_hz read_wav_result)
                             (num_channels read_wav_result) kBitrate dtx model_path
          = None ->
          EncodeFile (E := E) wav_path output_path ep dtx model_path
          = (Returned false, [EvReadWav wav_path; EvCreateEngine]))).
Proof.
  split.
  - intros encoded_path output_path sample_rate plr abl model_path. split.
    + unfold DecodeFile.
      destruct (LyraDecoder.Create _ _ _ _) as [decoder|]; [|eexists; reflexivity].
      cbv zeta. destruct (exit_of _) as [[|]| | | | |]; eexists; reflexivity.
    + intros Hnone. unfold DecodeFile. now rewrite Hnone.
  - intros wav_path output_path ep dtx model_path. split.
    + unfold EncodeFile.
      destruct (Read16BitWavFileToVector wav_path) as [rw|]; [|left; reflexivity].
      right. cbv zeta.
      destruct (exit_of _) as [[|]| | | | |]; try (eexists; reflexivity).
      destruct (to_size_t kNumFeatures =? 0); eexists; reflexivity.
    + intros rw Hread Hnone. unfold EncodeFile, EncodeWav.
      now rewrite Hread, Hnone.
Qed.

(** Both directions with an engine that cannot be constructed. *)
Lemma construction_failure_precedes_output_witness :
  DecodeFile (cfg := Fixture.config 2 1) (io := Fixture.containers)
             (dec_if := Fixture.decoder false 150 3000 50 None None)
             "in.npz"%string "out.wav"%string 150 Fixture.zero32 Fixture.zero32
             "model"%string
  = (Returned false, [EvCreateEngine]) /\
  EncodeFile (cfg := Fixture.config 2 1) (io := Fixture.containers)
             (enc_if := Fixture.encoder false 50 None)
             (pre := Fixture.identity_preprocessor)
             "in.wav"%string "out.npz"%string false false "model"%string
  = (Returned false, [EvReadWav "in.wav"%string; EvCreateEngine]).
Proof.
  destruct (construction_failure_precedes_output (cfg := Fixture.config 2 1)
              (io := Fixture.containers)
              (enc_if := Fixture.encoder false 50 None)
              (dec_if := Fixture.decoder false 150 3000 50 None None)
              (pre := Fixture.identity_preprocessor)) as [Hdec Henc].
  split.
  - apply (Hdec "in.npz"%string "out.wav"%string 150 Fixture.zero32 Fixture.zero32
                "model"%string). reflexivity.
  - apply (Henc "in.wav"%string "out.npz"%string false false "model"%string)
      with (read_wav_result :=
              {| samples := repeat 0 6; num_channels := 1; sample_rate_hz := 150 |});
      reflexivity.
Defined.

(** ** Binary32 facts *)

Lemma digits2_pos_bounds (p : positive) :
  2 ^ (Zpos (digits2_pos p) - 1) <= Zpos p < 2 ^ Zpos (digits2_pos p).
Proof.
  induction p as [p IH|p IH|]; simpl digits2_pos.
  - rewrite Pos2Z.inj_succ.
    replace (Z.succ (Zpos (digits2_pos p)) - 1) with (Z.succ (Zpos (digits2_pos p) - 1)) by lia.
    rewrite !Z.pow_succ_r by lia. lia.
  - rewrite Pos2Z.inj_succ.
    replace (Z.succ (Zpos (digits2_pos p)) - 1) with (Z.succ (Zpos (digits2_pos p) - 1)) by lia.
    rewrite !Z.pow_succ_r by lia. lia.
  - simpl. lia.
Qed.

Lemma digits2_pos_unique (p : positive) (k : Z) :
  2 ^ (k - 1) <= Zpos p < 2 ^ k -> Zpos (digits2_pos p) = k.
Proof.
  intros [Hlo Hhi]. pose proof (digits2_pos_bounds p) as [Dlo Dhi].
  assert (0 < k).
  { destruct (Z.ltb_spec 0 k); [assumption|].
    assert (2 ^ k <= 2 ^ 0) by (destruct (Z.eq_dec k 0) as [->|]; [lia|rewrite Z.pow_neg_r; simpl; lia]).
    simpl in *. lia. }
  set (d := Zpos (digits2_pos p)) in *.
  assert (k - 1 < d).
  { apply (Z.pow_lt_mono_r_iff 2); lia. }
  assert (d - 1 < k).
  { apply (Z.pow_lt_mono_r_iff 2); lia. }
  lia.
Qed.

Lemma iter_pos_nat {A} (f : A -> A) (p : positive) : forall x,
  iter_pos f p x = Nat.iter (Pos.to_nat p) f x.
Proof.
  induction p as [p IH|p IH|]; intros x; simpl iter_pos.
  - rewrite !IH, Pos2Nat.inj_xI.
    replace (S (2 * Pos.to_nat p)) with (Pos.to_nat p + (Pos.to_nat p + 1))%nat by lia.
    rewrite !Nat.iter_add. reflexivity.
  - rewrite !IH, Pos2Nat.inj_xO.
    replace (2 * Pos.to_nat p)%nat with (Pos.to_nat p + Pos.to_nat p)%nat by lia.
    rewrite Nat.iter_add. reflexivity.
  - reflexivity.
Qed.

Lemma iter_shr_1_exact (k : nat) : forall m : positive,
  Nat.iter k shr_1 (Build_shr_record (Zpos m * 2 ^ Z.of_nat k) false false)
  = Build_shr_record (Zpos m) false false.
Proof.
  induction k as [|k IH]; intros m.
  - change (Z.of_nat 0) with 0. rewrite Z.pow_0_r, Z.mul_1_r. reflexivity.
  - replace (Zpos m * 2 ^ Z.of_nat (S k)) with (Zpos m~0 * 2 ^ Z.of_nat k)
      by (rewrite Nat2Z.inj_succ, Z.pow_succ_r; lia).
    rewrite Nat.iter_succ, IH. reflexivity.
Qed.

(** shifting an exact multiple *)
Lemma shr_exact (m : positive) (e k : Z) :
  0 <= k ->
  shr (Build_shr_record (Zpos m * 2 ^ k) false false) e k
  = (Build_shr_record (Zpos m) false false, e + k).
Proof.
  intros Hk. destruct k as [|k|k]; [| |lia].
  - rewrite Z.pow_0_r, Z.mul_1_r, Z.add_0_r. reflexivity.
  - unfold shr. rewrite iter_pos_nat.
    rewrite <- (positive_nat_Z k). now rewrite iter_shr_1_exact.
Qed.

Lemma fexp32 (e : Z) : fexp prec32 emax32 e = Z.max (e - 24) (-149).
Proof. reflexivity. Qed.


Lemma normal_digits m : normal m -> Zpos (digits2_pos m) = 24.
Proof. intros H. apply digits2_pos_unique. exact H. Qed.

Lemma binary_round_aux_unfold s mx ex lx :
  binary_round_aux prec32 emax32 s mx ex lx
  = let '(mrs, e) := shr_fexp prec32 emax32 mx ex lx in
    round_finish s (round_nearest_even (shr_m mrs) (loc_of_shr_record mrs)) e.
Proof. reflexivity. Qed.

Lemma Zdigits2_scaled (m : positive) (k : Z) :
  normal m -> 0 <= k -> Zdigits2 (Zpos m * 2 ^ k) = 24 + k.
Proof.
  intros Hm Hk.
  assert (Hp : 0 < 2 ^ k) by (apply Z.pow_pos_nonneg; lia).
  destruct (Zpos m * 2 ^ k) as [|p|p] eqn:Hmk; try lia.
  unfold Zdigits2. apply digits2_pos_unique. rewrite <- Hmk.
  replace (24 + k - 1) with (23 + k) by lia.
  rewrite !Z.pow_add_r by lia. unfold normal in Hm. nia.
Qed.

Lemma shr_fexp_exact (m : positive) (e k : Z) :
  normal m -> 0 <= k -> -149 <= e + k ->
  shr_fexp prec32 emax32 (Zpos m * 2 ^ k) e loc_Exact
  = (Build_shr_record (Zpos m) false false, e + k).
Proof.
  intros Hm Hk He. unfold shr_fexp.
  rewrite (Zdigits2_scaled m k Hm Hk), fexp32.
  replace (Z.max (24 + k + e - 24) (-149) - e) with k by lia.
  cbn [shr_record_of_loc]. apply shr_exact. exact Hk.
Qed.

Lemma round_finish_exact s (m : positive) (e k : Z) :
  normal m -> 0 <= k -> -149 <= e + k <= 104 ->
  round_finish s (Zpos m * 2 ^ k) e = S754_finite s m (e + k).
Proof.
  intros Hm Hk He. unfold round_finish.
  rewrite shr_fexp_exact by (try assumption; lia). cbn [shr_m].
  destruct (Z.leb_spec (e + k) (emax32 - prec32)) as [_|Hbad]; [reflexivity|].
  unfold emax32, prec32 in Hbad. lia.
Qed.

(** rounding an exact multiple of a 24-bit mantissa *)
Lemma binary_round_aux_exact s (m : positive) (e k : Z) :
  normal m -> 0 <= k -> -149 <= e + k <= 104 ->
  binary_round_aux prec32 emax32 s (Zpos m * 2 ^ k) e loc_Exact
  = S754_finite s m (e + k).
Proof.
  intros Hm Hk He. rewrite binary_round_aux_unfold.
  rewrite shr_fexp_exact by (try assumption; lia).
  cbn [shr_m loc_of_shr_record round_nearest_even].
  rewrite <- (Z.mul_1_r (Zpos m)). change 1 with (2 ^ 0) at 1.
  rewrite round_finish_exact by (try assumption; lia).
  now rewrite Z.add_0_r.
Qed.

Lemma shift_pos_pow2 (p q : positive) :
  Zpos (Pos.iter xO p q) = Zpos p * 2 ^ Zpos q.
Proof.
  change (Pos.iter xO p q) with (shift_pos q p).
  rewrite shift_pos_correct, Z.pow_pos_fold. lia.
Qed.

(** An [int] strictly between 0 and 2^24 converts exactly, to a float with a
    24-bit mantissa. *)
Lemma float_of_int_normal (z : Z) :
  0 < z < 2 ^ 24 ->
  exists m a, float_of_int z = S754_finite false m (- a) /\
              normal m /\ 0 <= a <= 23 /\ Zpos m = z * 2 ^ a.
Proof.
  intros Hz. destruct z as [|p|p]; try lia.
  pose proof (digits2_pos_bounds p) as Hd.
  set (d := Zpos (digits2_pos p)) in *.
  assert (Hd1 : 1 <= d) by (unfold d; lia).
  assert (Hd24 : d <= 24).
  { destruct (Z.leb_spec d 24); [assumption|].
    assert (2 ^ 24 <= 2 ^ (d - 1)) by (apply Z.pow_le_mono_r; lia). lia. }
  unfold float_of_int, binary_normalize, binary_round.
  fold d. rewrite fexp32. unfold shl_align.
  replace (Z.max (d + 0 - 24) (-149) - 0) with (d - 24) by lia.
  destruct (d - 24) as [|q|q] eqn:Hq; try lia.
  - exists p, 0. split; [|split; [|split]].
    + rewrite <- (Z.mul_1_r (Zpos p)). change 1 with (2 ^ 0) at 1.
      apply (binary_round_aux_exact false p 0 0); unfold normal; try lia.
      replace d with 24 in Hd by lia. exact Hd.
    + unfold normal. replace d with 24 in Hd by lia. exact Hd.
    + lia.
    + simpl. lia.
  - assert (Hm : normal (Pos.iter xO p q)).
    { unfold normal. rewrite shift_pos_pow2.
      replace (Zpos q) with (24 - d) by lia.
      replace (2 ^ 23) with (2 ^ (d - 1) * 2 ^ (24 - d))
        by (rewrite <- Z.pow_add_r by lia; f_equal; lia).
      replace (2 ^ 24) with (2 ^ d * 2 ^ (24 - d))
        by (rewrite <- Z.pow_add_r by lia; f_equal; lia).
      assert (0 < 2 ^ (24 - d)) by (apply Z.pow_pos_nonneg; lia). nia. }
    exists (Pos.iter xO p q), (Zpos q). split; [|split; [|split]].
    + replace (Z.max (d + 0 - 24) (-149)) with (- Zpos q) by lia.
      rewrite <- (Z.mul_1_r (Zpos (Pos.iter xO p q))). change 1 with (2 ^ 0) at 1.
      rewrite binary_round_aux_exact by (try assumption; lia).
      now rewrite Z.add_0_r.
    + exact Hm.
    + lia.
    + apply shift_pos_pow2.
Qed.

Lemma new_location_spec (m2 r : Z) :
  0 <= r < m2 ->
  new_location m2 r = if r =? 0 then loc_Exact else loc_Inexact (2 * r ?= m2).
Proof.
  intros Hr. unfold new_location, new_location_even, new_location_odd.
  destruct (Z.even m2) eqn:Heven; destruct (r =? 0); try reflexivity.
  f_equal.
  destruct (Z.compare_spec (2 * r + 1) m2) as [H1|H1|H1];
    destruct (Z.compare_spec (2 * r) m2) as [H2|H2|H2]; try reflexivity; try lia.
  rewrite <- H2, Z.even_mul in Heven. discriminate Heven.
Qed.

Lemma shr_1_pos (q : Z) (rb sb : bool) :
  0 < q ->
  shr_1 (Build_shr_record q rb sb) = Build_shr_record (q / 2) (Z.odd q) (rb || sb).
Proof.
  intros Hq. destruct q as [|p|p]; try lia.
  rewrite <- Z.div2_div. destruct p; reflexivity.
Qed.

Lemma SFdiv_core_normal (m1 m2 : positive) (e1 e2 : Z) :
  normal m1 -> normal m2 -> -149 <= e1 - e2 - 24 ->
  SFdiv_core_binary prec32 emax32 (Zpos m1) e1 (Zpos m2) e2
  = ((Zpos m1 * 2 ^ 24) / Zpos m2, e1 - e2 - 24,
     new_location (Zpos m2) ((Zpos m1 * 2 ^ 24) mod Zpos m2)).
Proof.
  intros H1 H2 He. unfold SFdiv_core_binary.
  cbn [Zdigits2]. rewrite (normal_digits m1 H1), (normal_digits m2 H2), fexp32.
  replace (Z.min (Z.max (24 + e1 - (24 + e2) - 24) (-149)) (e1 - e2)) with (e1 - e2 - 24) by lia.
  replace (e1 - e2 - (e1 - e2 - 24)) with 24 by lia.
  rewrite Z.shiftl_mul_pow2 by lia.
  unfold Z.div, Z.modulo.
  destruct (Z.div_eucl (Zpos m1 * 2 ^ 24) (Zpos m2)) as [q r]. reflexivity.
Qed.

Lemma shr_m_of_loc q l : shr_m (shr_record_of_loc q l) = q.
Proof. destruct l as [|[]]; reflexivity. Qed.

Lemma loc_of_shr_record_of_loc q l : loc_of_shr_record (shr_record_of_loc q l) = l.
Proof. destruct l as [|[]]; reflexivity. Qed.

Lemma round_finish_range s (mr e : Z) :
  2 ^ 23 <= mr <= 2 ^ 24 -> -149 <= e <= 103 ->
  exists m e_out,
    round_finish s mr e = S754_finite s m e_out /\
    normal m /\ e <= e_out <= e + 1 /\ Zpos m * 2 ^ (e_out - e) = mr.
Proof.
  intros Hmr He. destruct (Z.eq_dec mr (2 ^ 24)) as [->|Hne].
  - exists (Z.to_pos (2 ^ 23)), (e + 1). split; [|split; [|split]].
    + change (2 ^ 24) with (Zpos (Z.to_pos (2 ^ 23)) * 2 ^ 1).
      apply round_finish_exact; unfold normal; simpl; lia.
    + unfold normal. simpl. lia.
    + lia.
    + replace (e + 1 - e) with 1 by lia. reflexivity.
  - destruct mr as [|m|m]; try lia.
    exists m, e. split; [|split; [|split]].
    + rewrite <- (Z.mul_1_r (Zpos m)). change 1 with (2 ^ 0) at 1.
      rewrite round_finish_exact by (unfold normal; lia).
      now rewrite Z.add_0_r.
    + unfold normal. lia.
    + lia.
    + replace (e - e) with 0 by lia. simpl. lia.
Qed.

(** Rounding a quotient with a 24-bit integer part. *)
Lemma round_quotient_24 s (q e m2 r : Z) :
  2 ^ 23 <= q < 2 ^ 24 -> 0 <= r < m2 -> -149 <= e <= 103 ->
  exists m e_out mr,
    binary_round_aux prec32 emax32 s q e (new_location m2 r) = S754_finite s m e_out /\
    normal m /\ e <= e_out <= e + 1 /\ Zpos m * 2 ^ (e_out - e) = mr /\
    (mr = q \/ mr = q + 1) /\
    (mr = q + 1 -> (2 * q + 1) * m2 <= 2 * (q * m2 + r)) /\
    (mr = q -> 2 * (q * m2 + r) <= (2 * q + 1) * m2).
Proof.
  intros Hq Hr He.
  rewrite binary_round_aux_unfold. unfold shr_fexp.
  assert (Hd : Zdigits2 q = 24).
  { destruct q as [|p|p]; try lia. apply (normal_digits p). exact Hq. }
  rewrite Hd, fexp32.
  replace (Z.max (24 + e - 24) (-149) - e) with 0 by lia.
  cbn [shr]. rewrite shr_m_of_loc, loc_of_shr_record_of_loc.
  set (mr := round_nearest_even q (new_location m2 r)).
  assert (Hmr : (mr = q \/ mr = q + 1) /\
                (mr = q + 1 -> (2 * q + 1) * m2 <= 2 * (q * m2 + r)) /\
                (mr = q -> 2 * (q * m2 + r) <= (2 * q + 1) * m2)).
  { unfold mr. rewrite new_location_spec by exact Hr.
    destruct (Z.eqb_spec r 0) as [->|Hr0]; cbn [round_nearest_even]; [lia|].
    destruct (Z.compare_spec (2 * r) m2) as [Hc|Hc|Hc]; [|lia|lia].
    destruct (Z.even q); lia. }
  destruct Hmr as (Hcase & Hup & Hdown).
  destruct (round_finish_range s mr e ltac:(lia) He) as (m & e_out & Hfin & Hm & Heo & Hval).
  exists m, e_out, mr.
  split; [exact Hfin|]. split; [exact Hm|]. split; [lia|].
  split; [exact Hval|]. split; [exact Hcase|]. split; assumption.
Qed.

(** Rounding a quotient with a 25-bit integer part: one bit is shifted out. *)
Lemma round_quotient_25 s (q e m2 r : Z) :
  2 ^ 24 <= q < 2 ^ 25 -> 0 <= r < m2 -> -149 <= e <= 102 ->
  exists m e_out mr,
    binary_round_aux prec32 emax32 s q e (new_location m2 r) = S754_finite s m e_out /\
    normal m /\ e + 1 <= e_out <= e + 2 /\ Zpos m * 2 ^ (e_out - (e + 1)) = mr /\
    (mr = q / 2 \/ mr = q / 2 + 1) /\
    (mr = q / 2 + 1 -> (2 * (q / 2) + 1) * (2 * m2) <= 2 * (q * m2 + r)) /\
    (mr = q / 2 -> 2 * (q * m2 + r) <= (2 * (q / 2) + 1) * (2 * m2)).
Proof.
  intros Hq Hr He.
  rewrite binary_round_aux_unfold. unfold shr_fexp.
  assert (Hd : Zdigits2 q = 25).
  { destruct q as [|p|p]; try lia. unfold Zdigits2.
    apply digits2_pos_unique. exact Hq. }
  rewrite Hd, fexp32.
  replace (Z.max (25 + e - 24) (-149) - e) with 1 by lia.
  cbn [shr iter_pos].
  pose proof (Z.div_mod q 2 ltac:(lia)) as Hdm.
  pose proof (Zmod_odd q) as Hodd.
  set (mr := round_nearest_even
               (shr_m (shr_1 (shr_record_of_loc q (new_location m2 r))))
               (loc_of_shr_record (shr_1 (shr_record_of_loc q (new_location m2 r))))).
  assert (Hmr : (mr = q / 2 \/ mr = q / 2 + 1) /\
                (mr = q / 2 + 1 -> (2 * (q / 2) + 1) * (2 * m2) <= 2 * (q * m2 + r)) /\
                (mr = q / 2 -> 2 * (q * m2 + r) <= (2 * (q / 2) + 1) * (2 * m2))).
  { unfold mr. rewrite new_location_spec by exact Hr.
    destruct (Z.eqb_spec r 0) as [->|Hr0].
    - cbn [shr_record_of_loc]. rewrite shr_1_pos by lia.
      destruct (Z.odd q); cbn [orb shr_m loc_of_shr_record round_nearest_even].
      + destruct (Z.even (q / 2)); nia.
      + nia.
    - destruct (2 * r ?= m2); cbn [shr_record_of_loc]; rewrite shr_1_pos by lia;
        destruct (Z.odd q); cbn [orb shr_m loc_of_shr_record round_nearest_even];
        nia. }
  destruct Hmr as (Hcase & Hup & Hdown).
  assert (Hq2 : 2 ^ 23 <= q / 2 < 2 ^ 24).
  { change (2 ^ 25) with (2 ^ 24 * 2) in Hq. change (2 ^ 24) with (2 ^ 23 * 2) in Hq at 1.
    destruct (Z.odd q); lia. }
  destruct (round_finish_range s mr (e + 1) ltac:(lia) ltac:(lia))
    as (m & e_out & Hfin & Hm & Heo & Hval).
  exists m, e_out, mr.
  split; [exact Hfin|]. split; [exact Hm|]. split; [lia|].
  split; [exact Hval|]. split; [exact Hcase|]. split; assumption.
Qed.

Lemma fmul_one s (m : positive) (e : Z) :
  normal m -> -149 <= e <= 104 ->
  fmul (S754_finite s m e) (float_of_int 1) = S754_finite s m e.
Proof.
  intros Hm He.
  change (float_of_int 1) with (S754_finite false (Z.to_pos (2 ^ 23)) (-23)).
  unfold fmul, SFmul. rewrite xorb_false_r.
  rewrite Pos2Z.inj_mul. change (Zpos (Z.to_pos (2 ^ 23))) with (2 ^ 23).
  rewrite binary_round_aux_exact by (try assumption; lia).
  f_equal. lia.
Qed.

Lemma fdiv_eight s (m : positive) (e : Z) :
  normal m -> -145 <= e <= 107 ->
  fdiv (S754_finite s m e) (float_of_int CHAR_BIT) = S754_finite s m (e - 3).
Proof.
  intros Hm He.
  change (float_of_int CHAR_BIT) with (S754_finite false (Z.to_pos (2 ^ 23)) (-20)).
  unfold fdiv, SFdiv.
  rewrite SFdiv_core_normal by (try assumption; unfold normal; simpl; lia).
  change (Zpos (Z.to_pos (2 ^ 23))) with (2 ^ 23).
  replace (Zpos m * 2 ^ 24) with (Zpos m * 2 ^ 1 * 2 ^ 23) by (simpl; lia).
  rewrite Z_div_mult by (simpl; lia). rewrite Z_mod_mult.
  change (new_location (2 ^ 23) 0) with loc_Exact.
  rewrite xorb_false_r.
  rewrite binary_round_aux_exact by (try assumption; lia).
  f_equal. lia.
Qed.

Lemma cast_ceil_normal (m : positive) (e : Z) :
  normal m -> e < 0 ->
  static_cast_int (ceilf (S754_finite false m e))
  = CastValue (- ((- Zpos m) / 2 ^ (- e))).
Proof.
  intros Hm He. unfold ceilf.
  destruct (Z.leb_spec 0 e) as [Hbad|_]; [lia|].
  unfold Zceil_scaled. destruct (Z.leb_spec 0 e) as [Hbad|_]; [lia|].
  cbn [cond_Zopp].
  set (z := - (- Zpos m / 2 ^ (- e))).
  assert (Hw : 2 <= 2 ^ (- e)).
  { change 2 with (2 ^ 1) at 1. apply Z.pow_le_mono_r; lia. }
  assert (Hz : 0 < z <= 2 ^ 23).
  { unfold z, normal in *.
    pose proof (Z.div_mod (- Zpos m) (2 ^ (- e)) ltac:(lia)) as Hdm.
    pose proof (Z.mod_pos_bound (- Zpos m) (2 ^ (- e)) ltac:(lia)) as Hmod.
    change (2 ^ 24) with (2 * 2 ^ 23) in Hm. nia. }
  destruct (Z.eqb_spec z 0) as [Hz0|_]; [lia|].
  destruct (float_of_int_normal z) as (mz & a & Hf & Hmz & Ha & Hval).
  { change (2 ^ 24) with (2 * 2 ^ 23). lia. }
  rewrite Hf. unfold static_cast_int. cbn [cond_Zopp].
  replace (- - a) with a by lia.
  assert (Hvalue : (if 0 <=? - a then Zpos mz * 2 ^ (- a) else Zpos mz / 2 ^ a) = z).
  { destruct (Z.leb_spec 0 (- a)).
    - replace a with 0 in * by lia. simpl in Hval. simpl. lia.
    - rewrite Hval. apply Z_div_mult. apply Z.lt_gt. apply Z.pow_pos_nonneg; lia. }
  rewrite Hvalue.
  destruct (Z.leb_spec INT_MIN z) as [_|Hbad]; [|unfold INT_MIN in Hbad; lia].
  destruct (Z.leb_spec z INT_MAX) as [_|Hbad]; [reflexivity|].
  unfold INT_MAX in Hbad. change (2 ^ 31) with (256 * 2 ^ 23) in Hbad. lia.
Qed.

(** The integer core of the argument: rounding the quotient to a 24-bit
    mantissa does not move it across a multiple of eight when the dividend
    is below 2^24. *)
Lemma ceiling_survives_rounding (B F G mt mr N : Z) :
  0 < B < 2 ^ 24 -> 0 < F -> 0 < G -> 2 ^ 23 <= mt ->
  mt * F <= B * G < (mt + 1) * F ->
  (mr = mt \/ mr = mt + 1) ->
  (mr = mt + 1 -> (2 * mt + 1) * F <= 2 * (B * G)) ->
  (mr = mt -> 2 * (B * G) <= (2 * mt + 1) * F) ->
  (N - 1) * (8 * G) < mr <= N * (8 * G) ->
  8 * F * (N - 1) < B <= 8 * F * N.
Proof.
  intros HB HF HG Hmt Hfloor Hcase Hup Hdown HN.
  change (2 ^ 24) with 16777216 in *. change (2 ^ 23) with 8388608 in *.
  split.
  - destruct (Z.lt_ge_cases (8 * F * (N - 1)) B) as [|Hle]; [assumption|exfalso].
    assert (H1 : B * G <= F * (mr - 1)) by nia.
    destruct Hcase as [->| ->].
    + nia.
    + specialize (Hup eq_refl). nia.
  - destruct (Z.le_gt_cases B (8 * F * N)) as [|Hgt]; [assumption|exfalso].
    assert (H1 : F * mr + G <= B * G) by nia.
    destruct Hcase as [->| ->].
    + specialize (Hdown eq_refl).
      assert (2 * G <= F) by nia.
      assert (8388608 * (2 * G) <= B * G) by nia.
      nia.
    + nia.
Qed.

Lemma quotient_to_ratio (B F G C A' B'' X m2 q r mt : Z) :
  0 < G -> 0 < C -> 0 < A' -> 0 < B'' -> 0 < F ->
  G * C * B'' = 16777216 * A' ->
  X = B * A' * 16777216 -> m2 = F * B'' ->
  X = m2 * q + r -> 0 <= r < m2 ->
  mt * C <= q < (mt + 1) * C ->
  mt * F <= B * G < (mt + 1) * F /\
  ((2 * mt + 1) * (C * m2) <= 2 * (q * m2 + r) -> (2 * mt + 1) * F <= 2 * (B * G)) /\
  (2 * (q * m2 + r) <= (2 * mt + 1) * (C * m2) -> 2 * (B * G) <= (2 * mt + 1) * F).
Proof.
  intros HG HC HA HB HF Hrel HX Hm2 Hdm Hr Hfloor.
  assert (HXG : X = B * G * (C * B'')).
  { rewrite HX. replace (B * G * (C * B'')) with (B * (G * C * B'')) by ring.
    rewrite Hrel. ring. }
  assert (Hpos : 0 < C * B'') by (apply Z.mul_pos_pos; assumption).
  assert (Hlo : mt * C * m2 <= X).
  { rewrite Hdm. assert (mt * C * m2 <= q * m2) by (apply Z.mul_le_mono_nonneg_r; lia). lia. }
  assert (Hhi : X < (mt + 1) * C * m2).
  { rewrite Hdm. assert ((q + 1) * m2 <= (mt + 1) * C * m2) by (apply Z.mul_le_mono_nonneg_r; lia). lia. }
  subst m2. repeat split.
  - apply Z.mul_le_mono_pos_r with (p := C * B''); [exact Hpos|]. rewrite <- HXG.
    replace (mt * F * (C * B'')) with (mt * C * (F * B'')) by ring. exact Hlo.
  - apply Z.mul_lt_mono_pos_r with (p := C * B''); [exact Hpos|]. rewrite <- HXG.
    replace ((mt + 1) * F * (C * B'')) with ((mt + 1) * C * (F * B'')) by ring. exact Hhi.
  - intros Hup. apply Z.mul_le_mono_pos_r with (p := C * B''); [exact Hpos|].
    replace (2 * (B * G) * (C * B'')) with (2 * (B * G * (C * B''))) by ring.
    rewrite <- HXG.
    replace ((2 * mt + 1) * F * (C * B'')) with ((2 * mt + 1) * (C * (F * B''))) by ring.
    lia.
  - intros Hdown. apply Z.mul_le_mono_pos_r with (p := C * B''); [exact Hpos|].
    replace (2 * (B * G) * (C * B'')) with (2 * (B * G * (C * B''))) by ring.
    rewrite <- HXG.
    replace ((2 * mt + 1) * F * (C * B'')) with ((2 * mt + 1) * (C * (F * B''))) by ring.
    lia.
Qed.

Lemma ceil_div_unique (a b n : Z) :
  0 < b -> b * (n - 1) < a <= b * n -> ceil_div a b = n.
Proof.
  intros Hb Hn. unfold ceil_div.
  rewrite <- (Z.div_unique (- a) b (- n) (b * n - a)); lia.
Qed.

Lemma ceil_div_bounds (a b : Z) :
  0 < b -> (ceil_div a b - 1) * b < a <= ceil_div a b * b.
Proof.
  intros Hb. unfold ceil_div.
  pose proof (Z.div_mod (- a) b ltac:(lia)) as Hdm.
  pose proof (Z.mod_pos_bound (- a) b Hb) as Hmod. nia.
Qed.

(** From a rounded quotient to the packet size. *)
Lemma rounded_quotient_ceiling (B F a b c : Z) (m1 m2 m : positive) (q r e_out mr mt : Z) :
  0 < B < 2 ^ 24 -> 0 < F ->
  0 <= a <= 23 -> 0 <= b <= 23 -> (c = 0 \/ c = 1) ->
  Zpos m1 = B * 2 ^ a -> Zpos m2 = F * 2 ^ b ->
  Zpos m1 * 2 ^ 24 = Zpos m2 * q + r -> 0 <= r < Zpos m2 ->
  normal m ->
  b - a - 24 + c <= e_out <= b - a - 24 + c + 1 ->
  Zpos m * 2 ^ (e_out - (b - a - 24 + c)) = mr ->
  2 ^ 23 <= mt -> mt * 2 ^ c <= q < (mt + 1) * 2 ^ c ->
  (mr = mt \/ mr = mt + 1) ->
  (mr = mt + 1 -> (2 * mt + 1) * (2 ^ c * Zpos m2) <= 2 * (q * Zpos m2 + r)) ->
  (mr = mt -> 2 * (q * Zpos m2 + r) <= (2 * mt + 1) * (2 ^ c * Zpos m2)) ->
  static_cast_int
    (ceilf (fdiv (fmul (S754_finite false m e_out) (float_of_int 1))
                 (float_of_int CHAR_BIT)))
  = CastValue (ceil_div B (8 * F)).
Proof.
  intros HB HF Ha Hb Hc Hv1 Hv2 Hdm Hr Hm He Hval Hmt Hfloor Hcase Hup Hdown.
  rewrite fmul_one by (try assumption; lia).
  rewrite fdiv_eight by (try assumption; lia).
  rewrite cast_ceil_normal by (try assumption; lia).
  f_equal. symmetry. apply ceil_div_unique; [lia|].
  fold (ceil_div (Zpos m) (2 ^ (- (e_out - 3)))).
  set (W := 2 ^ (- (e_out - 3))).
  assert (HW : 0 < W) by (apply Z.pow_pos_nonneg; lia).
  pose proof (ceil_div_bounds (Zpos m) W HW) as HN.
  set (N := ceil_div (Zpos m) W) in *.
  set (g := a - b + 24 - c).
  assert (Hg : 0 <= g) by (unfold g; lia).
  assert (HG : 0 < 2 ^ g) by (apply Z.pow_pos_nonneg; lia).
  assert (HK : 0 < 2 ^ (e_out - (b - a - 24 + c))) by (apply Z.pow_pos_nonneg; lia).
  assert (HWK : W * 2 ^ (e_out - (b - a - 24 + c)) = 8 * 2 ^ g).
  { unfold W. rewrite <- Z.pow_add_r by lia. change 8 with (2 ^ 3).
    rewrite <- Z.pow_add_r by lia. f_equal. unfold g. lia. }
  assert (Hrel : 2 ^ g * 2 ^ c * 2 ^ b = 16777216 * 2 ^ a).
  { change 16777216 with (2 ^ 24). rewrite <- !Z.pow_add_r by lia. f_equal. unfold g. lia. }
  assert (HC : 0 < 2 ^ c) by (apply Z.pow_pos_nonneg; lia).
  assert (HA : 0 < 2 ^ a) by (apply Z.pow_pos_nonneg; lia).
  assert (HB' : 0 < 2 ^ b) by (apply Z.pow_pos_nonneg; lia).
  destruct (quotient_to_ratio B F (2 ^ g) (2 ^ c) (2 ^ a) (2 ^ b)
              (Zpos m1 * 2 ^ 24) (Zpos m2) q r mt HG HC HA HB' HF Hrel)
    as (Hratio & Hup' & Hdown'); try assumption.
  { rewrite Hv1. reflexivity. }
  cut (8 * F * (N - 1) < B <= 8 * F * N); [lia|].
  apply (ceiling_survives_rounding B F (2 ^ g) mt mr N HB HF HG Hmt Hratio Hcase).
  - intros H. apply Hup', Hup, H.
  - intros H. apply Hdown', Hdown, H.
  - rewrite <- Hval.
    generalize dependent (2 ^ (e_out - (b - a - 24 + c))). intros K2 _ HK HWK.
    generalize dependent (2 ^ g). intros G. intros. split.
    + replace ((N - 1) * (8 * G)) with ((N - 1) * W * K2) by (rewrite <- HWK; ring).
      apply Z.mul_lt_mono_pos_r; lia.
    + replace (N * (8 * G)) with (N * W * K2) by (rewrite <- HWK; ring).
      apply Z.mul_le_mono_nonneg_r; lia.
Qed.

Lemma packet_bytes_exact (B F : Z) :
  0 < B < 2 ^ 24 -> 0 < F < 2 ^ 24 ->
  static_cast_int
    (ceilf (fdiv (fmul (fdiv (float_of_int B) (float_of_int F)) (float_of_int 1))
                 (float_of_int CHAR_BIT)))
  = CastValue (ceil_div B (8 * F)).
Proof.
  intros HB HF.
  destruct (float_of_int_normal B HB) as (m1 & a & -> & Hm1 & Ha & Hv1).
  destruct (float_of_int_normal F HF) as (m2 & b & -> & Hm2 & Hb & Hv2).
  unfold fdiv at 2. unfold SFdiv.
  rewrite SFdiv_core_normal by (try assumption; lia).
  cbn [xorb].
  set (X := Zpos m1 * 2 ^ 24).
  set (q := X / Zpos m2). set (r := X mod Zpos m2).
  pose proof (Z.div_mod X (Zpos m2) ltac:(lia)) as Hdm. fold q r in Hdm.
  pose proof (Z.mod_pos_bound X (Zpos m2) ltac:(lia)) as Hr. fold r in Hr.
  assert (Hq : 2 ^ 23 <= q < 2 ^ 25).
  { unfold normal in Hm1, Hm2. unfold X in Hdm.
    change (2 ^ 25) with 33554432. change (2 ^ 24) with 16777216 in *.
    change (2 ^ 23) with 8388608 in *. nia. }
  replace (- a - - b - 24) with (b - a - 24) by lia.
  destruct (Z.lt_ge_cases q (2 ^ 24)) as [Hsmall|Hbig].
  - destruct (round_quotient_24 false q (b - a - 24) (Zpos m2) r ltac:(lia) Hr ltac:(lia))
      as (m & e_out & mr & -> & Hm & He & Hval & Hcase & Hup & Hdown).
    apply (rounded_quotient_ceiling B F a b 0 m1 m2 m q r e_out mr q
             HB (proj1 HF) Ha Hb (or_introl eq_refl) Hv1 Hv2 Hdm Hr Hm).
    + lia.
    + now rewrite Z.add_0_r.
    + lia.
    + rewrite Z.pow_0_r. lia.
    + lia.
    + intros H. specialize (Hup H). rewrite Z.pow_0_r. lia.
    + intros H. specialize (Hdown H). rewrite Z.pow_0_r. lia.
  - destruct (round_quotient_25 false q (b - a - 24) (Zpos m2) r ltac:(lia) Hr ltac:(lia))
      as (m & e_out & mr & -> & Hm & He & Hval & Hcase & Hup & Hdown).
    pose proof (Z.div_mod q 2 ltac:(lia)) as Hq2.
    pose proof (Z.mod_pos_bound q 2 ltac:(lia)) as Hq2'.
    apply (rounded_quotient_ceiling B F a b 1 m1 m2 m q r e_out mr (q / 2)
             HB (proj1 HF) Ha Hb (or_intror eq_refl) Hv1 Hv2 Hdm Hr Hm).
    + lia.
    + exact Hval.
    + change (2 ^ 24) with (2 * 2 ^ 23) in Hbig. lia.
    + rewrite Z.pow_1_r. lia.
    + lia.
    + intros H. specialize (Hup H). rewrite Z.pow_1_r. lia.
    + intros H. specialize (Hdown H). rewrite Z.pow_1_r. lia.
Qed.

Lemma shr_1_m (mrs : shr_record) :
  0 <= shr_m mrs -> shr_m (shr_1 mrs) = shr_m mrs / 2.
Proof.
  destruct mrs as [m rb sb]. cbn [shr_m]. intros Hm.
  destruct m as [|p|p]; try lia; [reflexivity|].
  rewrite <- Z.div2_div. destruct p; reflexivity.
Qed.

Lemma iter_shr_1_m (k : nat) (mrs : shr_record) :
  0 <= shr_m mrs ->
  shr_m (Nat.iter k shr_1 mrs) = shr_m mrs / 2 ^ Z.of_nat k.
Proof.
  intros Hm. induction k as [|k IH].
  - simpl. now rewrite Z.div_1_r.
  - rewrite Nat.iter_succ, shr_1_m, IH.
    + rewrite Nat2Z.inj_succ, Z.pow_succ_r by lia.
      rewrite Z.div_div by (try apply Z.pow_pos_nonneg; lia).
      f_equal. lia.
    + rewrite IH. apply Z.div_pos; [exact Hm | apply Z.pow_pos_nonneg; lia].
Qed.

Lemma round_nearest_even_step (m : Z) (l : location) :
  round_nearest_even m l = m \/ round_nearest_even m l = m + 1.
Proof. destruct l as [|[]]; cbn; try (left; reflexivity); try (right; reflexivity).
  destruct (Z.even m); [left|right]; reflexivity. Qed.

(** An [int] from 2^24 upwards converts to a float with a 24-bit mantissa
    and a positive exponent. *)
Lemma float_of_int_large (z : Z) :
  2 ^ 24 <= z < 2 ^ 31 ->
  exists m e, float_of_int z = S754_finite false m e /\ normal m /\ 1 <= e <= 8.
Proof.
  intros Hz. destruct z as [|p|p]; try lia.
  pose proof (digits2_pos_bounds p) as Hd.
  set (d := Zpos (digits2_pos p)) in *.
  assert (Hd25 : 25 <= d).
  { destruct (Z.leb_spec 25 d); [assumption|].
    assert (2 ^ d <= 2 ^ 24) by (apply Z.pow_le_mono_r; lia). lia. }
  assert (Hd31 : d <= 31).
  { destruct (Z.leb_spec d 31); [assumption|].
    assert (2 ^ 31 <= 2 ^ (d - 1)) by (apply Z.pow_le_mono_r; lia). lia. }
  unfold float_of_int, binary_normalize, binary_round.
  fold d. rewrite fexp32. unfold shl_align.
  replace (Z.max (d + 0 - 24) (-149) - 0) with (d - 24) by lia.
  destruct (d - 24) as [|k|k] eqn:Hk; try lia.
  rewrite binary_round_aux_unfold. unfold shr_fexp.
  cbn [Zdigits2]. fold d. rewrite fexp32.
  replace (Z.max (d + 0 - 24) (-149) - 0) with (Zpos k) by lia.
  cbn [shr shr_record_of_loc]. rewrite iter_pos_nat.
  set (mrs := Nat.iter (Pos.to_nat k) shr_1 (Build_shr_record (Zpos p) false false)).
  assert (Hmt : shr_m mrs = Zpos p / 2 ^ Zpos k).
  { unfold mrs. rewrite iter_shr_1_m by (cbn; lia). cbn [shr_m].
    now rewrite positive_nat_Z. }
  assert (Hrange : 2 ^ 23 <= shr_m mrs < 2 ^ 24).
  { rewrite Hmt. replace (Zpos k) with (d - 24) by lia.
    assert (Hp : 0 < 2 ^ (d - 24)) by (apply Z.pow_pos_nonneg; lia).
    split.
    - apply Z.div_le_lower_bound; [exact Hp|].
      replace (2 ^ (d - 24) * 2 ^ 23) with (2 ^ (d - 1))
        by (rewrite <- Z.pow_add_r by lia; f_equal; lia). lia.
    - apply Z.div_lt_upper_bound; [exact Hp|].
      replace (2 ^ (d - 24) * 2 ^ 24) with (2 ^ d)
        by (rewrite <- Z.pow_add_r by lia; f_equal; lia). lia. }
  destruct (round_finish_range false
              (round_nearest_even (shr_m mrs) (loc_of_shr_record mrs)) (0 + Zpos k))
    as (m & e_out & Hfin & Hm & He & _).
  { destruct (round_nearest_even_step (shr_m mrs) (loc_of_shr_record mrs)) as [-> | ->]; lia. }
  { lia. }
  exists m, e_out. split; [exact Hfin|]. split; [exact Hm | lia].
Qed.

(** A frame rate from 2^24 upwards: the quotient is at most one. *)
Lemma packet_bytes_large_rate (B F : Z) :
  0 < B < 2 ^ 24 -> 2 ^ 24 <= F < 2 ^ 31 ->
  static_cast_int
    (ceilf (fdiv (fmul (fdiv (float_of_int B) (float_of_int F)) (float_of_int 1))
                 (float_of_int CHAR_BIT)))
  = CastValue (ceil_div B (8 * F)).
Proof.
  intros HB HF.
  destruct (float_of_int_normal B HB) as (m1 & a & -> & Hm1 & Ha & Hv1).
  destruct (float_of_int_large F HF) as (m2 & e2 & -> & Hm2 & He2).
  unfold fdiv at 2. unfold SFdiv.
  rewrite SFdiv_core_normal by (try assumption; lia).
  cbn [xorb].
  set (X := Zpos m1 * 2 ^ 24).
  set (q := X / Zpos m2). set (r := X mod Zpos m2).
  pose proof (Z.div_mod X (Zpos m2) ltac:(lia)) as Hdm. fold q r in Hdm.
  pose proof (Z.mod_pos_bound X (Zpos m2) ltac:(lia)) as Hr. fold r in Hr.
  assert (Hq : 2 ^ 23 <= q < 2 ^ 25).
  { unfold normal in Hm1, Hm2. unfold X in Hdm.
    change (2 ^ 25) with 33554432. change (2 ^ 24) with 16777216 in *.
    change (2 ^ 23) with 8388608 in *. nia. }
  assert (Hsmall : forall (m : positive) e_out,
             normal m -> - a - e2 - 24 <= e_out <= - a - e2 - 24 + 2 ->
             static_cast_int
               (ceilf (fdiv (fmul (S754_finite false m e_out) (float_of_int 1))
                            (float_of_int CHAR_BIT)))
             = CastValue (ceil_div B (8 * F))).
  { intros m e_out Hm He.
    rewrite fmul_one by (try assumption; lia).
    rewrite fdiv_eight by (try assumption; lia).
    rewrite cast_ceil_normal by (try assumption; lia).
    f_equal. fold (ceil_div (Zpos m) (2 ^ (- (e_out - 3)))).
    rewrite (ceil_div_unique B (8 * F) 1) by lia.
    apply ceil_div_unique; [apply Z.pow_pos_nonneg; lia|].
    assert (2 ^ 24 <= 2 ^ (- (e_out - 3))) by (apply Z.pow_le_mono_r; lia).
    unfold normal in Hm. lia. }
  destruct (Z.lt_ge_cases q (2 ^ 24)) as [Hlt|Hge].
  - destruct (round_quotient_24 false q (- a - e2 - 24) (Zpos m2) r ltac:(lia) Hr ltac:(lia))
      as (m & e_out & mr & -> & Hm & He & _).
    apply Hsmall; [exact Hm | lia].
  - destruct (round_quotient_25 false q (- a - e2 - 24) (Zpos m2) r ltac:(lia) Hr ltac:(lia))
      as (m & e_out & mr & -> & Hm & He & _).
    apply Hsmall; [exact Hm | lia].
Qed.

(** ** Non-finite values *)

Lemma fdiv_by_zero_nonfinite (x : float32) (s : bool) :
  nonfinite (fdiv x (S754_zero s)).
Proof. destruct x; exact I. Qed.

Lemma fmul_nonfinite (x y : float32) : nonfinite x -> nonfinite (fmul x y).
Proof. destruct x; try contradiction; destruct y; intros _; exact I. Qed.

Lemma fdiv_nonfinite (x y : float32) : nonfinite x -> nonfinite (fdiv x y).
Proof. destruct x; try contradiction; destruct y; intros _; exact I. Qed.

Lemma cast_ceil_nonfinite (x : float32) :
  nonfinite x -> static_cast_int (ceilf x) = CastUndefined.
Proof. destruct x; try contradiction; reflexivity. Qed.

(** ** Operands of either sign *)

(** Rounding a mantissa of more than 24 bits: shifting the low bits out
    leaves a 24-bit mantissa. *)
Lemma binary_round_aux_long s (p : positive) (e : Z) :
  25 <= Zpos (digits2_pos p) ->
  -149 <= e -> e + Zpos (digits2_pos p) <= 127 ->
  exists m e_out,
    binary_round_aux prec32 emax32 s (Zpos p) e loc_Exact = S754_finite s m e_out /\
    normal m /\
    e + Zpos (digits2_pos p) - 24 <= e_out <= e + Zpos (digits2_pos p) - 23.
Proof.
  intros Hd25 He Hhi.
  pose proof (digits2_pos_bounds p) as Hd.
  set (d := Zpos (digits2_pos p)) in *.
  rewrite binary_round_aux_unfold. unfold shr_fexp.
  cbn [Zdigits2]. fold d. rewrite fexp32.
  replace (Z.max (d + e - 24) (-149) - e) with (d - 24) by lia.
  destruct (d - 24) as [|k|k] eqn:Hk; try lia.
  cbn [shr shr_record_of_loc]. rewrite iter_pos_nat.
  set (mrs := Nat.iter (Pos.to_nat k) shr_1 (Build_shr_record (Zpos p) false false)).
  assert (Hmt : shr_m mrs = Zpos p / 2 ^ Zpos k).
  { unfold mrs. rewrite iter_shr_1_m by (cbn; lia). cbn [shr_m].
    now rewrite positive_nat_Z. }
  assert (Hrange : 2 ^ 23 <= shr_m mrs < 2 ^ 24).
  { rewrite Hmt. replace (Zpos k) with (d - 24) by lia.
    assert (Hp : 0 < 2 ^ (d - 24)) by (apply Z.pow_pos_nonneg; lia).
    split.
    - apply Z.div_le_lower_bound; [exact Hp|].
      replace (2 ^ (d - 24) * 2 ^ 23) with (2 ^ (d - 1))
        by (rewrite <- Z.pow_add_r by lia; f_equal; lia). lia.
    - apply Z.div_lt_upper_bound; [exact Hp|].
      replace (2 ^ (d - 24) * 2 ^ 24) with (2 ^ d)
        by (rewrite <- Z.pow_add_r by lia; f_equal; lia). lia. }
  destruct (round_finish_range s
              (round_nearest_even (shr_m mrs) (loc_of_shr_record mrs)) (e + Zpos k))
    as (m & e_out & Hfin & Hm & Heo & _).
  { destruct (round_nearest_even_step (shr_m mrs) (loc_of_shr_record mrs)) as [-> | ->]; lia. }
  { lia. }
  exists m, e_out. split; [exact Hfin|]. split; [exact Hm | lia].
Qed.

(** The conversion of a nonzero integer of magnitude at most 2^31, of
    either sign: a 24-bit mantissa, and no positive exponent below 2^24. *)
Lemma binary_round_int s (p : positive) :
  Zpos p <= 2 ^ 31 ->
  exists m e,
    binary_round prec32 emax32 s p 0 = S754_finite s m e /\
    normal m /\ -23 <= e <= 9 /\ (Zpos p < 2 ^ 24 -> e <= 0).
Proof.
  intros Hp. pose proof (digits2_pos_bounds p) as Hd.
  set (d := Zpos (digits2_pos p)) in *.
  assert (Hd1 : 1 <= d) by (unfold d; lia).
  assert (Hd32 : d <= 32).
  { destruct (Z.leb_spec d 32); [assumption|].
    assert (2 ^ 32 <= 2 ^ (d - 1)) by (apply Z.pow_le_mono_r; lia). lia. }
  unfold binary_round.
  fold d. rewrite fexp32. unfold shl_align.
  replace (Z.max (d + 0 - 24) (-149) - 0) with (d - 24) by lia.
  destruct (d - 24) as [|q|q] eqn:Hq.
  - exists p, 0. split; [|split; [|split]].
    + rewrite <- (Z.mul_1_r (Zpos p)). change 1 with (2 ^ 0) at 1.
      apply (binary_round_aux_exact s p 0 0); unfold normal; try lia.
      replace d with 24 in Hd by lia. exact Hd.
    + unfold normal. replace d with 24 in Hd by lia. exact Hd.
    + lia.
    + lia.
  - destruct (binary_round_aux_long s p 0) as (m & e & Hf & Hm & He);
      fold d; try lia.
    exists m, e. split; [exact Hf|]. split; [exact Hm|]. fold d in He.
    split; [lia|]. intros Hsmall.
    assert (2 ^ 24 <= 2 ^ (d - 1)) by (apply Z.pow_le_mono_r; lia). lia.
  - assert (Hm : normal (Pos.iter xO p q)).
    { unfold normal. rewrite shift_pos_pow2.
      replace (Zpos q) with (24 - d) by lia.
      replace (2 ^ 23) with (2 ^ (d - 1) * 2 ^ (24 - d))
        by (rewrite <- Z.pow_add_r by lia; f_equal; lia).
      replace (2 ^ 24) with (2 ^ d * 2 ^ (24 - d))
        by (rewrite <- Z.pow_add_r by lia; f_equal; lia).
      assert (0 < 2 ^ (24 - d)) by (apply Z.pow_pos_nonneg; lia). nia. }
    exists (Pos.iter xO p q), (- Zpos q). split; [|split; [|split]].
    + replace (Z.max (d + 0 - 24) (-149)) with (- Zpos q) by lia.
      rewrite <- (Z.mul_1_r (Zpos (Pos.iter xO p q))). change 1 with (2 ^ 0) at 1.
      rewrite binary_round_aux_exact by (try assumption; lia).
      now rewrite Z.add_0_r.
    + exact Hm.
    + lia.
    + lia.
Qed.

Lemma float_of_int_finite (z : Z) :
  z <> 0 -> - 2 ^ 31 <= z <= 2 ^ 31 ->
  exists s m e,
    float_of_int z = S754_finite s m e /\
    normal m /\ -23 <= e <= 9 /\ (Z.abs z < 2 ^ 24 -> e <= 0).
Proof.
  intros Hz Hr. destruct z as [|p|p]; [contradiction| |].
  - destruct (binary_round_int false p) as (m & e & H); [lia|].
    exists false, m, e. exact H.
  - destruct (binary_round_int true p) as (m & e & H); [lia|].
    exists true, m, e. exact H.
Qed.

(** The quotient of two floats with 24-bit mantissas. *)
Lemma fdiv_finite s1 s2 (m1 m2 : positive) (e1 e2 : Z) :
  normal m1 -> normal m2 -> -125 <= e1 - e2 <= 126 ->
  exists m e,
    fdiv (S754_finite s1 m1 e1) (S754_finite s2 m2 e2)
    = S754_finite (xorb s1 s2) m e /\
    normal m /\ e1 - e2 - 24 <= e <= e1 - e2 - 22.
Proof.
  intros Hm1 Hm2 He. unfold fdiv, SFdiv.
  rewrite SFdiv_core_normal by (try assumption; lia).
  set (X := Zpos m1 * 2 ^ 24).
  set (q := X / Zpos m2). set (r := X mod Zpos m2).
  pose proof (Z.div_mod X (Zpos m2) ltac:(lia)) as Hdm. fold q r in Hdm.
  pose proof (Z.mod_pos_bound X (Zpos m2) ltac:(lia)) as Hr. fold r in Hr.
  assert (Hq : 2 ^ 23 <= q < 2 ^ 25).
  { unfold normal in Hm1, Hm2. unfold X in Hdm.
    change (2 ^ 25) with 33554432. change (2 ^ 24) with 16777216 in *.
    change (2 ^ 23) with 8388608 in *. nia. }
  destruct (Z.lt_ge_cases q (2 ^ 24)) as [Hlt|Hge].
  - destruct (round_quotient_24 (xorb s1 s2) q (e1 - e2 - 24) (Zpos m2) r
                ltac:(lia) Hr ltac:(lia))
      as (m & e_out & mr & Hf & Hm & Heo & _).
    exists m, e_out. split; [exact Hf|]. split; [exact Hm | lia].
  - destruct (round_quotient_25 (xorb s1 s2) q (e1 - e2 - 24) (Zpos m2) r
                ltac:(lia) Hr ltac:(lia))
      as (m & e_out & mr & Hf & Hm & Heo & _).
    exists m, e_out. split; [exact Hf|]. split; [exact Hm | lia].
Qed.

(** A float of magnitude below 2^31 converts to an [int]. *)
Lemma static_cast_int_fits s (m : positive) (e : Z) :
  normal m -> e <= 7 ->
  exists z, static_cast_int (S754_finite s m e) = CastValue z.
Proof.
  intros Hm He. unfold static_cast_int.
  set (mag := if 0 <=? e then Zpos m * 2 ^ e else Zpos m / 2 ^ (- e)).
  assert (Hmag : 0 <= mag < 2 ^ 31).
  { unfold mag, normal in *. destruct (Z.leb_spec 0 e) as [Hpos|Hneg].
    - assert (2 ^ e <= 2 ^ 7) by (apply Z.pow_le_mono_r; lia).
      assert (0 < 2 ^ e) by (apply Z.pow_pos_nonneg; lia).
      change (2 ^ 31) with (2 ^ 24 * 2 ^ 7). nia.
    - assert (Hw : 0 < 2 ^ (- e)) by (apply Z.pow_pos_nonneg; lia).
      split; [apply Z.div_pos; lia|].
      apply Z.le_lt_trans with (Zpos m).
      + apply Z.div_le_upper_bound; [exact Hw | nia].
      + change (2 ^ 31) with (128 * 2 ^ 24). lia. }
  exists (cond_Zopp s mag).
  replace ((INT_MIN <=? cond_Zopp s mag) && (cond_Zopp s mag <=? INT_MAX)) with true;
    [reflexivity|].
  symmetry. apply andb_true_iff. unfold INT_MIN, INT_MAX.
  destruct s; cbn [cond_Zopp]; split; apply Z.leb_le; lia.
Qed.

(** So does its ceiling. *)
Lemma cast_ceil_fits s (m : positive) (e : Z) :
  normal m -> e <= 7 ->
  exists z, static_cast_int (ceilf (S754_finite s m e)) = CastValue z.
Proof.
  intros Hm He. unfold ceilf.
  destruct (Z.leb_spec 0 e) as [Hpos|Hneg].
  - apply static_cast_int_fits; assumption.
  - set (z := Zceil_scaled (cond_Zopp s (Zpos m)) e).
    assert (Hz : Z.abs z < 2 ^ 24).
    { unfold z, Zceil_scaled.
      destruct (Z.leb_spec 0 e) as [Hbad|_]; [lia|].
      assert (Hw : 0 < 2 ^ (- e)) by (apply Z.pow_pos_nonneg; lia).
      unfold normal in Hm.
      pose proof (Z.div_mod (- cond_Zopp s (Zpos m)) (2 ^ (- e)) ltac:(lia)) as Hdm.
      pose proof (Z.mod_pos_bound (- cond_Zopp s (Zpos m)) (2 ^ (- e)) Hw) as Hmod.
      destruct s; cbn [cond_Zopp] in *; nia. }
    destruct (Z.eqb_spec z 0) as [Hz0|Hz0].
    + exists 0. reflexivity.
    + destruct (float_of_int_finite z Hz0) as (s' & m' & e' & -> & Hm' & He' & Hsmall).
      { change (2 ^ 31) with (128 * 2 ^ 24). lia. }
      apply static_cast_int_fits; [exact Hm'|].
      specialize (Hsmall Hz). lia.
Qed.

(** ** The claims about frame sizing *)

Section PacketSizeFacts.
Context {cfg : LyraConfig} {D : Type} {dec_if : LyraDecoder.Interface D}.

(** With one frame per packet, a bit rate below 2^24 and a positive frame
    rate, the three float operations lose nothing that the ceiling sees. *)
Lemma PacketSize_one_frame (decoder : D) :
  kNumFramesPerPacket = 1 ->
  0 <= LyraDecoder.bitrate decoder < 2 ^ 24 ->
  0 < LyraDecoder.frame_rate decoder <= INT_MAX ->
  PacketSize decoder
  = CastValue (ceil_div (LyraDecoder.bitrate decoder)
                        (8 * LyraDecoder.frame_rate decoder)).
Proof.
  intros HK HB HF. unfold PacketSize, bytes_per_packet, bits_per_packet.
  rewrite HK.
  set (B := LyraDecoder.bitrate decoder) in *.
  set (F := LyraDecoder.frame_rate decoder) in *.
  unfold INT_MAX in HF.
  destruct (Z.eq_dec B 0) as [HB0|HB0].
  - rewrite HB0. change (float_of_int 0) with (S754_zero false).
    assert (HfF : exists m e, float_of_int F = S754_finite false m e).
    { destruct (Z.lt_ge_cases F (2 ^ 24)) as [Hlt|Hge].
      - destruct (float_of_int_normal F ltac:(lia)) as (m & a & Hf & _).
        exists m, (- a). exact Hf.
      - destruct (float_of_int_large F ltac:(lia)) as (m & e & Hf & _).
        exists m, e. exact Hf. }
    destruct HfF as (m & e & ->). reflexivity.
  - destruct (Z.lt_ge_cases F (2 ^ 24)) as [Hlt|Hge].
    + apply packet_bytes_exact; lia.
    + apply packet_bytes_large_rate; lia.
Qed.

(** With a zero frame rate the float quotient is an infinity or NaN, and
    its conversion to [int] is undefined. *)
Lemma PacketSize_zero_frame_rate (decoder : D) :
  LyraDecoder.frame_rate decoder = 0 ->
  nonfinite (bits_per_packet decoder) /\ PacketSize decoder = CastUndefined.
Proof.
  intros HF. unfold PacketSize, bytes_per_packet, bits_per_packet. rewrite HF.
  change (float_of_int 0) with (S754_zero false).
  pose proof (fdiv_by_zero_nonfinite (float_of_int (LyraDecoder.bitrate decoder)) false) as H0.
  pose proof (fmul_nonfinite _ (float_of_int kNumFramesPerPacket) H0) as H1.
  split; [exact H1|].
  apply cast_ceil_nonfinite, fdiv_nonfinite, H1.
Qed.

(** With one frame per packet [PacketSize] yields a value for every [int]
    bit rate and every nonzero [int] frame rate. *)
Lemma PacketSize_one_frame_any_rate (decoder : D) :
  kNumFramesPerPacket = 1 ->
  INT_MIN <= LyraDecoder.bitrate decoder <= INT_MAX ->
  INT_MIN <= LyraDecoder.frame_rate decoder <= INT_MAX ->
  LyraDecoder.frame_rate decoder <> 0 ->
  exists bytes, PacketSize decoder = CastValue bytes.
Proof.
  intros HK HB HF HF0. unfold PacketSize, bytes_per_packet, bits_per_packet.
  rewrite HK. unfold INT_MIN, INT_MAX in HB, HF.
  destruct (float_of_int_finite (LyraDecoder.frame_rate decoder) HF0)
    as (s2 & m2 & e2 & -> & Hm2 & He2 & _); [lia|].
  destruct (Z.eq_dec (LyraDecoder.bitrate decoder) 0) as [->|HB0].
  - exists 0. reflexivity.
  - destruct (float_of_int_finite (LyraDecoder.bitrate decoder) HB0)
      as (s1 & m1 & e1 & -> & Hm1 & He1 & _); [lia|].
    destruct (fdiv_finite s1 s2 m1 m2 e1 e2 Hm1 Hm2 ltac:(lia))
      as (m & e & -> & Hm & He).
    rewrite fmul_one by (try assumption; lia).
    rewrite fdiv_eight by (try assumption; lia).
    apply cast_ceil_fits; [exact Hm | lia].
Qed.

End PacketSizeFacts.

(** C5, as stated, fails: the float computation differs from the exact
    ceiling for a bit rate above 2^24, and for eleven frames per packet. *)
Lemma PacketSize_differs_from_exact_ceiling :
  (PacketSize (cfg := Fixture.config 2 1)
              (dec_if := Fixture.decoder true 150 16777217 1 None None) O
   = CastValue 2097152 /\
   exact_packet_size 16777217 1 1 = 2097153) /\
  (PacketSize (cfg := Fixture.config 2 11)
              (dec_if := Fixture.decoder true 150 232 11 None None) O
   = CastValue 30 /\
   exact_packet_size 232 11 11 = 29) /\
  PacketSize (cfg := Fixture.config 2 1)
             (dec_if := Fixture.decoder true 150 16777217 1 None None) O
  <> CastValue (exact_packet_size 16777217 1 1).
Proof.
  split; [|split].
  - split; vm_compute; reflexivity.
  - split; vm_compute; reflexivity.
  - vm_compute. discriminate.
Qed.

(** C5, amended.  With one frame per packet, a bit rate [B] with
    [0 <= B < 2^24] and a positive frame rate [F], [PacketSize] returns
    exactly [ceil(B * K / (F * 8))]; for [B = 3000] and [F = 50] this is
    8 bytes. *)
Theorem PacketSize_is_exact_ceiling
        {cfg : LyraConfig} {D : Type} {dec_if : LyraDecoder.Interface D}
        (decoder : D) :
  kNumFramesPerPacket = 1 ->
  0 <= LyraDecoder.bitrate decoder < 2 ^ 24 ->
  0 < LyraDecoder.frame_rate decoder <= INT_MAX ->
  PacketSize decoder
  = CastValue (exact_packet_size (LyraDecoder.bitrate decoder)
                                 (LyraDecoder.frame_rate decoder)
                                 kNumFramesPerPacket) /\
  exact_packet_size 3000 50 1 = 8.
Proof.
  intros HK HB HF. split; [|reflexivity].
  rewrite (PacketSize_one_frame decoder HK HB HF).
  unfold exact_packet_size. rewrite HK. do 2 f_equal; lia.
Qed.

(** The configuration of the example: 3000 bit/s at 50 frames per second. *)
Lemma PacketSize_is_exact_ceiling_witness :
  PacketSize (cfg := Fixture.config 2 1)
             (dec_if := Fixture.decoder true 150 3000 50 None None) O
  = CastValue 8.
Proof.
  destruct (PacketSize_is_exact_ceiling (cfg := Fixture.config 2 1)
              (dec_if := Fixture.decoder true 150 3000 50 None None) O)
    as [Hsize _].
  - reflexivity.
  - simpl. lia.
  - unfold INT_MAX. simpl. lia.
  - exact Hsize.
Defined.

(** *** The stride of [EncodeWav] *)

Section SamplesPerPacketFacts.
Context {cfg : LyraConfig} {E : Type} {enc_if : LyraEncoder.Interface E}
        {pre : PreprocessorInterface}.

(** A truncated quotient of an [int] is an [int], [INT_MIN / -1] apart. *)
Lemma quot_is_int (a b : Z) :
  INT_MIN <= a <= INT_MAX -> b <> 0 -> ~ (a = INT_MIN /\ b = -1) ->
  INT_MIN <= Z.quot a b <= INT_MAX.
Proof.
  unfold INT_MIN, INT_MAX. intros Ha Hb Hex.
  pose proof (Z.quot_rem' a b) as Hqr.
  destruct (Z.le_gt_cases 0 a) as [Hpos|Hneg].
  - pose proof (Z.rem_nonneg a b Hb Hpos) as Hr.
    pose proof (Z.rem_bound_abs a b Hb) as Hrb.
    nia.
  - pose proof (Z.rem_nonpos a b Hb ltac:(lia)) as Hr.
    pose proof (Z.rem_bound_abs a b Hb) as Hrb.
    nia.
Qed.

(** When lines 72-73 yield a stride: the product fits an [int], the divisor
    is not zero, the quotient is not [INT_MIN / -1], and the stride is the
    truncated quotient, an [int]. *)
Lemma encoder_samples_per_packet_some sr (encoder : E) n :
  encoder_samples_per_packet sr encoder = Some n ->
  INT_MIN <= kNumFramesPerPacket * sr <= INT_MAX /\
  LyraEncoder.frame_rate encoder <> 0 /\
  ~ (kNumFramesPerPacket * sr = INT_MIN /\ LyraEncoder.frame_rate encoder = -1) /\
  n = Z.quot (kNumFramesPerPacket * sr) (LyraEncoder.frame_rate encoder) /\
  INT_MIN <= n <= INT_MAX.
Proof.
  unfold encoder_samples_per_packet, int_mul, int_div, is_int.
  destruct (Z.leb_spec INT_MIN (kNumFramesPerPacket * sr)) as [Hlo|_];
    [|discriminate].
  destruct (Z.leb_spec (kNumFramesPerPacket * sr) INT_MAX) as [Hhi|_];
    [|discriminate].
  cbn [andb].
  destruct (Z.eqb_spec (LyraEncoder.frame_rate encoder) 0) as [_|HF];
    [discriminate|].
  destruct (Z.eqb_spec (kNumFramesPerPacket * sr) INT_MIN) as [Hmin|Hmin];
    destruct (Z.eqb_spec (LyraEncoder.frame_rate encoder) (-1)) as [Hm1|Hm1];
    cbn [andb]; try discriminate;
    intros [= <-];
    (assert (Hex : ~ (kNumFramesPerPacket * sr = INT_MIN /\
                      LyraEncoder.frame_rate encoder = -1)) by tauto);
    (split; [split; assumption|]); (split; [exact HF|]);
    (split; [exact Hex|]); (split; [reflexivity|]);
    apply quot_is_int; try assumption; split; assumption.
Qed.

(** And conversely. *)
Lemma encoder_samples_per_packet_value sr (encoder : E) :
  INT_MIN <= kNumFramesPerPacket * sr <= INT_MAX ->
  LyraEncoder.frame_rate encoder <> 0 ->
  ~ (kNumFramesPerPacket * sr = INT_MIN /\ LyraEncoder.frame_rate encoder = -1) ->
  encoder_samples_per_packet sr encoder
  = Some (Z.quot (kNumFramesPerPacket * sr) (LyraEncoder.frame_rate encoder)).
Proof.
  intros [Hlo Hhi] HF Hex.
  unfold encoder_samples_per_packet, int_mul, int_div, is_int.
  destruct (Z.leb_spec INT_MIN (kNumFramesPerPacket * sr)) as [_|Hbad]; [|lia].
  destruct (Z.leb_spec (kNumFramesPerPacket * sr) INT_MAX) as [_|Hbad]; [|lia].
  cbn [andb].
  destruct (Z.eqb_spec (LyraEncoder.frame_rate encoder) 0) as [H0|_];
    [contradiction|].
  destruct (Z.eqb_spec (kNumFramesPerPacket * sr) INT_MIN) as [Hmin|Hmin];
    destruct (Z.eqb_spec (LyraEncoder.frame_rate encoder) (-1)) as [Hm1|Hm1];
    cbn [andb]; try reflexivity.
  exfalso. apply Hex. split; assumption.
Qed.

(** A zero frame rate, the product fitting an [int]: the division by zero
    is reached, nothing is appended. *)
Lemma EncodeWav_zero_frame_rate wav nc sr ep dtx mp out (encoder : E) :
  LyraEncoder.Create sr nc kBitrate dtx mp = Some encoder ->
  LyraEncoder.frame_rate encoder = 0 ->
  INT_MIN <= kNumFramesPerPacket * sr <= INT_MAX ->
  EncodeWav wav nc sr ep dtx mp out = Run DivisionByZero out (Some encoder).
Proof.
  intros Hcreate HF [Hlo Hhi].
  unfold EncodeWav, encoder_samples_per_packet, samples_per_packet_fault,
    int_mul, int_div, is_int.
  rewrite Hcreate, HF.
  destruct (Z.leb_spec INT_MIN (kNumFramesPerPacket * sr)) as [_|Hbad]; [|lia].
  destruct (Z.leb_spec (kNumFramesPerPacket * sr) INT_MAX) as [_|Hbad]; [|lia].
  reflexivity.
Qed.

(** A product outside the range of [int], or the quotient [INT_MIN / -1]:
    the call ends in the overflow, nothing is appended. *)
Lemma EncodeWav_stride_overflow wav nc sr ep dtx mp out (encoder : E) :
  LyraEncoder.Create sr nc kBitrate dtx mp = Some encoder ->
  kNumFramesPerPacket * sr < INT_MIN \/ INT_MAX < kNumFramesPerPacket * sr \/
  (kNumFramesPerPacket * sr = INT_MIN /\ LyraEncoder.frame_rate encoder = -1) ->
  EncodeWav wav nc sr ep dtx mp out = Run IntegerOverflow out (Some encoder).
Proof.
  intros Hcreate Hcase.
  unfold EncodeWav, encoder_samples_per_packet, samples_per_packet_fault,
    int_mul, int_div, is_int.
  rewrite Hcreate.
  destruct Hcase as [Hlow | [Hhigh | [Hmin Hm1]]].
  - destruct (Z.leb_spec INT_MIN (kNumFramesPerPacket * sr)) as [Hbad|_]; [lia|].
    reflexivity.
  - destruct (Z.leb_spec (kNumFramesPerPacket * sr) INT_MAX) as [Hbad|_]; [lia|].
    rewrite andb_false_r. reflexivity.
  - rewrite Hmin, Hm1. reflexivity.
Qed.

End SamplesPerPacketFacts.

(** C6, as stated, fails in both halves.  No invalid-configuration failure
    exists: with a zero frame rate [EncodeWav] performs the integer
    division and [PacketSize] divides by a float zero and converts an
    infinity.  And a nonzero frame rate does not rule failure out: the
    stride of [EncodeWav] is undefined for [INT_MIN / -1] and for a product
    that overflows, and [PacketSize] converts a float that exceeds the
    range of [int] with eight frames per packet. *)
Lemma frame_sizing_can_be_undefined :
  (let r := EncodeWav (cfg := Fixture.config 2 1)
                      (enc_if := Fixture.encoder true 0 None)
                      (pre := Fixture.identity_preprocessor)
                      [1; 2; 3] 1 150 false false "model"%string [] in
   exit_of r = DivisionByZero /\ exit_of r <> Returned false) /\
  (bits_per_packet (cfg := Fixture.config 2 1)
                   (dec_if := Fixture.decoder true 150 3000 0 None None) O
   = S754_infinity false /\
   PacketSize (cfg := Fixture.config 2 1)
              (dec_if := Fixture.decoder true 150 3000 0 None None) O
   = CastUndefined) /\
  (encoder_samples_per_packet (cfg := Fixture.config 2 1)
                              (enc_if := Fixture.encoder true (-1) None)
                              (-2147483648) O
   = None /\
   exit_of (EncodeWav (cfg := Fixture.config 2 1)
                      (enc_if := Fixture.encoder true (-1) None)
                      (pre := Fixture.identity_preprocessor)
                      [1; 2; 3] 1 (-2147483648) false false "model"%string [])
   = IntegerOverflow) /\
  (encoder_samples_per_packet (cfg := Fixture.config 2 2)
                              (enc_if := Fixture.encoder true 268435456 None)
                              1073741824 O
   = None /\
   exit_of (EncodeWav (cfg := Fixture.config 2 2)
                      (enc_if := Fixture.encoder true 268435456 None)
                      (pre := Fixture.identity_preprocessor)
                      [1; 2; 3] 1 1073741824 false false "model"%string [])
   = IntegerOverflow) /\
  PacketSize (cfg := Fixture.config 2 8)
             (dec_if := Fixture.decoder true 150 2147483647 1 None None) O
  = CastUndefined.
Proof.
  split; [|split; [|split; [|split]]].
  - split; [reflexivity | simpl; discriminate].
  - split; reflexivity.
  - split; reflexivity.
  - split; reflexivity.
  - vm_compute. reflexivity.
Qed.

(** C6, amended.  Nothing validates the frame rate.  With a nonzero frame
    rate the stride of [EncodeWav] is the truncated quotient, an [int],
    whenever the product [kNumFramesPerPacket * sample_rate_hz] fits an
    [int] and the quotient is not [INT_MIN / -1]; otherwise the call ends
    in the overflow.  With one frame per packet [PacketSize] yields a value
    for every [int] bit rate and every nonzero [int] frame rate.  With a
    zero frame rate [EncodeWav], once the engine exists and the product
    fits, ends in the division by zero with the accumulator untouched, and
    [PacketSize] converts a non-finite float. *)
Theorem frame_sizing_without_validation
        {cfg : LyraConfig} {E D : Type} {enc_if : LyraEncoder.Interface E}
        {dec_if : LyraDecoder.Interface D} {pre : PreprocessorInterface} :
  (forall sr (encoder : E),
      LyraEncoder.frame_rate encoder <> 0 ->
      INT_MIN <= kNumFramesPerPacket * sr <= INT_MAX ->
      ~ (kNumFramesPerPacket * sr = INT_MIN /\ LyraEncoder.frame_rate encoder = -1) ->
      encoder_samples_per_packet sr encoder
      = Some (Z.quot (kNumFramesPerPacket * sr) (LyraEncoder.frame_rate encoder)) /\
      INT_MIN <= Z.quot (kNumFramesPerPacket * sr) (LyraEncoder.frame_rate encoder)
              <= INT_MAX) /\
  (forall wav nc sr ep dtx mp out (encoder : E),
      LyraEncoder.Create sr nc kBitrate dtx mp = Some encoder ->
      kNumFramesPerPacket * sr < INT_MIN \/ INT_MAX < kNumFramesPerPacket * sr \/
      (kNumFramesPerPacket * sr = INT_MIN /\ LyraEncoder.frame_rate encoder = -1) ->
      EncodeWav wav nc sr ep dtx mp out = Run IntegerOverflow out (Some encoder)) /\
  (forall (decoder : D),
      kNumFramesPerPacket = 1 ->
      INT_MIN <= LyraDecoder.bitrate decoder <= INT_MAX ->
      INT_MIN <= LyraDecoder.frame_rate decoder <= INT_MAX ->
      LyraDecoder.frame_rate decoder <> 0 ->
      exists bytes, PacketSize decoder = CastValue bytes) /\
  (forall wav nc sr ep dtx mp out (encoder : E),
      LyraEncoder.Create sr nc kBitrate dtx mp = Some encoder ->
      LyraEncoder.frame_rate encoder = 0 ->
      INT_MIN <= kNumFramesPerPacket * sr <= INT_MAX ->
      EncodeWav wav nc sr ep dtx mp out = Run DivisionByZero out (Some encoder)) /\
  (forall (decoder : D),
      LyraDecoder.frame_rate decoder = 0 ->
      nonfinite (bits_per_packet decoder) /\ PacketSize decoder = CastUndefined).
Proof.
  split; [|split; [|split; [|split]]].
  - intros sr encoder HF Hprod Hex. split.
    + apply encoder_samples_per_packet_value; assumption.
    + apply quot_is_int; assumption.
  - intros wav nc sr ep dtx mp out encoder Hcreate Hcase.
    apply EncodeWav_stride_overflow; assumption.
  - intros decoder HK HB HF HF0.
    apply PacketSize_one_frame_any_rate; assumption.
  - intros wav nc sr ep dtx mp out encoder Hcreate HF Hprod.
    apply EncodeWav_zero_frame_rate; assumption.
  - intros decoder HF. apply PacketSize_zero_frame_rate. exact HF.
Qed.

(** The five parts on the scripted engines: frame rates 50, -50, -1 and 0. *)
Lemma frame_sizing_without_validation_witness :
  (encoder_samples_per_packet (cfg := Fixture.config 2 1)
                              (enc_if := Fixture.encoder true (-50) None) 150 O
   = Some (-3)) /\
  EncodeWav (cfg := Fixture.config 2 1) (enc_if := Fixture.encoder true (-1) None)
            (pre := Fixture.identity_preprocessor)
            [1; 2; 3] 1 (-2147483648) false false "model"%string []
  = Run IntegerOverflow [] (Some O) /\
  (exists bytes,
      PacketSize (cfg := Fixture.config 2 1)
                 (dec_if := Fixture.decoder true 150 (-2147483648) (-50) None None) O
      = CastValue bytes) /\
  EncodeWav (cfg := Fixture.config 2 1) (enc_if := Fixture.encoder true 0 None)
            (pre := Fixture.identity_preprocessor)
            [1; 2; 3] 1 150 false false "model"%string []
  = Run DivisionByZero [] (Some O) /\
  PacketSize (cfg := Fixture.config 2 1)
             (dec_if := Fixture.decoder true 150 3000 0 None None) O
  = CastUndefined.
Proof.
  destruct (frame_sizing_without_validation (cfg := Fixture.config 2 1)
              (enc_if := Fixture.encoder true (-50) None)
              (dec_if := Fixture.decoder true 150 (-2147483648) (-50) None None)
              (pre := Fixture.identity_preprocessor))
    as (Hsamples & _ & Hbytes & _ & _).
  destruct (frame_sizing_without_validation (cfg := Fixture.config 2 1)
              (enc_if := Fixture.encoder true (-1) None)
              (dec_if := Fixture.decoder true 150 3000 0 None None)
              (pre := Fixture.identity_preprocessor))
    as (_ & Hoverflow & _ & _ & _).
  destruct (frame_sizing_without_validation (cfg := Fixture.config 2 1)
              (enc_if := Fixture.encoder true 0 None)
              (dec_if := Fixture.decoder true 150 3000 0 None None)
              (pre := Fixture.identity_preprocessor))
    as (_ & _ & _ & Hencode & Hdecode).
  split; [|split; [|split; [|split]]].
  - apply (Hsamples 150 O).
    + simpl. lia.
    + unfold INT_MIN, INT_MAX. simpl. lia.
    + simpl. intros [_ Hbad]. discriminate Hbad.
  - apply (Hoverflow [1; 2; 3] 1 (-2147483648) false false "model"%string [] O).
    + reflexivity.
    + right. right. split; reflexivity.
  - apply (Hbytes O).
    + reflexivity.
    + unfold INT_MIN, INT_MAX. simpl. lia.
    + unfold INT_MIN, INT_MAX. simpl. lia.
    + simpl. lia.
  - apply (Hencode [1; 2; 3] 1 150 false false "model"%string [] O).
    + reflexivity.
    + reflexivity.
    + unfold INT_MIN, INT_MAX. simpl. lia.
  - apply (Hdecode O). reflexivity.
Defined.

(** * Further properties of the two files *)

(** ** [EncodeWav]: every run with a positive stride *)

Section EncodeWavOutcome.
Context {cfg : LyraConfig} {E : Type} {enc_if : LyraEncoder.Interface E}
        {pre : PreprocessorInterface}.




End EncodeWavOutcome.





(** ** [EncodeWav]: strides that leave no window *)

(** When the buffer is shorter than one window (an empty buffer included),
    or when the computed stride is negative, the loop body never runs: the
    call returns [true], appends nothing and never calls [EncodeRaw]. *)
Theorem EncodeWav_without_a_whole_window
        {cfg : LyraConfig} {E : Type} {enc_if : LyraEncoder.Interface E}
        {pre : PreprocessorInterface}
        wav nc sr ep dtx mp out encoder (n : Z) :
  LyraEncoder.Create sr nc kBitrate dtx mp = Some encoder ->
  encoder_samples_per_packet sr encoder = Some n ->
  n < 0 \/ Z.of_nat (length (processed ep wav sr)) < n ->
  EncodeWav wav nc sr ep dtx mp out = Run (Returned true) out (Some encoder).
Proof.
  intros Hcreate Hn Hshort. unfold EncodeWav. rewrite Hcreate, Hn.
  cbv zeta. cbn [EncodeLoop]. unfold int_le_size.
  replace ((0 <=? 0 + n) && (0 + n <=? Z.of_nat (length (processed ep wav sr))))
    with false; [reflexivity|].
  symmetry. apply andb_false_iff.
  destruct Hshort as [Hneg|Hlen]; [left; apply Z.leb_gt | right; apply Z.leb_gt]; lia.
Qed.

(** Two samples with three per packet; and a frame rate of -50, which makes
    the stride -3. *)
Lemma EncodeWav_without_a_whole_window_witness :
  EncodeWav (cfg := Fixture.config 2 1) (enc_if := Fixture.encoder true 50 None)
            (pre := Fixture.identity_preprocessor)
            [1; 2] 1 150 false false "model"%string []
  = Run (Returned true) [] (Some O) /\
  EncodeWav (cfg := Fixture.config 2 1) (enc_if := Fixture.encoder true (-50) None)
            (pre := Fixture.identity_preprocessor)
            [1; 2; 3; 4; 5; 6; 7] 1 150 false false "model"%string []
  = Run (Returned true) [] (Some O).
Proof.
  split.
  - apply (EncodeWav_without_a_whole_window (cfg := Fixture.config 2 1)
             (enc_if := Fixture.encoder true 50 None)
             (pre := Fixture.identity_preprocessor)
             [1; 2] 1 150 false false "model"%string [] O 3).
    + reflexivity.
    + reflexivity.
    + right. simpl. lia.
  - apply (EncodeWav_without_a_whole_window (cfg := Fixture.config 2 1)
             (enc_if := Fixture.encoder true (-50) None)
             (pre := Fixture.identity_preprocessor)
             [1; 2; 3; 4; 5; 6; 7] 1 150 false false "model"%string [] O (-3)).
    + reflexivity.
    + reflexivity.
    + left. lia.
Defined.

Section ZeroStride.
Context {cfg : LyraConfig} {E : Type} {enc_if : LyraEncoder.Interface E}
        {pre : PreprocessorInterface}.

(** With a stride of zero the index stays at 0: on a non-empty buffer every
    iteration hands the engine an empty window, and as long as the engine
    accepts it the loop goes on. *)
Lemma EncodeLoop_zero_stride data :
  data <> [] ->
  (forall e, exists p e', LyraEncoder.EncodeRaw e [] = (Some p, e')) ->
  forall fuel e out, exit_of (EncodeLoop fuel e data 0 0 out) = OutOfFuel.
Proof.
  intros Hdata Hok. induction fuel as [|fuel IH]; intros e out; [reflexivity|].
  cbn [EncodeLoop]. unfold int_le_size, int_lt_size.
  assert (Hlen : 0 < Z.of_nat (length data)).
  { destruct data; [contradiction | simpl; lia]. }
  replace ((0 <=? 0 + 0) && (0 + 0 <=? Z.of_nat (length data))) with true
    by (symmetry; apply andb_true_intro; split; apply Z.leb_le; lia).
  replace ((0 <=? 0) && (0 <? Z.of_nat (length data))) with true
    by (symmetry; apply andb_true_intro; split; [apply Z.leb_le | apply Z.ltb_lt]; lia).
  change (MakeConstSpan data 0 0) with (@nil int16_t).
  destruct (Hok e) as (p & e' & ->). apply IH.
Qed.

End ZeroStride.

(** A stride of zero (a sample rate below the frame rate).  On a non-empty
    buffer, with an engine that accepts the empty window, the loop never
    ends, whatever the number of iterations allowed.  On an empty buffer the
    first [at(0)] throws [std::out_of_range] with nothing appended. *)
Theorem EncodeWav_zero_stride
        {cfg : LyraConfig} {E : Type} {enc_if : LyraEncoder.Interface E}
        {pre : PreprocessorInterface}
        wav nc sr ep dtx mp out encoder :
  LyraEncoder.Create sr nc kBitrate dtx mp = Some encoder ->
  encoder_samples_per_packet sr encoder = Some 0 ->
  (processed ep wav sr <> [] ->
   (forall e, exists p e', LyraEncoder.EncodeRaw e [] = (Some p, e')) ->
   (forall fuel, exit_of (EncodeLoop fuel encoder (processed ep wav sr) 0 0 out)
                 = OutOfFuel) /\
   exit_of (EncodeWav wav nc sr ep dtx mp out) = OutOfFuel) /\
  (processed ep wav sr = [] ->
   EncodeWav wav nc sr ep dtx mp out = Run OutOfRange out (Some encoder)).
Proof.
  intros Hcreate Hn. split.
  - intros Hdata Hok. split.
    + intros fuel. apply EncodeLoop_zero_stride; assumption.
    + unfold EncodeWav. rewrite Hcreate, Hn. cbv zeta. unfold exit_of at 1.
      apply EncodeLoop_zero_stride; assumption.
  - intros Hdata. unfold EncodeWav. rewrite Hcreate, Hn, Hdata. reflexivity.
Qed.

(** A sample rate of 10 Hz with 50 frames per second: the stride is 0. *)
Lemma EncodeWav_zero_stride_witness :
  exit_of (EncodeWav (cfg := Fixture.config 2 1)
                     (enc_if := Fixture.encoder true 50 None)
                     (pre := Fixture.identity_preprocessor)
                     [1; 2; 3] 1 10 false false "model"%string [])
  = OutOfFuel /\
  EncodeWav (cfg := Fixture.config 2 1) (enc_if := Fixture.encoder true 50 None)
            (pre := Fixture.identity_preprocessor)
            [] 1 10 false false "model"%string []
  = Run OutOfRange [] (Some O).
Proof.
  split.
  - destruct (EncodeWav_zero_stride (cfg := Fixture.config 2 1)
                (enc_if := Fixture.encoder true 50 None)
                (pre := Fixture.identity_preprocessor)
                [1; 2; 3] 1 10 false false "model"%string [] O)
      as [Hloop _]; [reflexivity | reflexivity |].
    apply Hloop.
    + discriminate.
    + intros e. exists [Fixture.zero32; Fixture.zero32], (S e). reflexivity.
  - destruct (EncodeWav_zero_stride (cfg := Fixture.config 2 1)
                (enc_if := Fixture.encoder true 50 None)
                (pre := Fixture.identity_preprocessor)
                [] 1 10 false false "model"%string [] O)
      as [_ Hempty]; [reflexivity | reflexivity |].
    apply Hempty. reflexivity.
Defined.

(** ** [DecodeFeatures]: every run *)

Section DecodeOutcome.
Context {cfg : LyraConfig} {D : Type} {dec_if : LyraDecoder.Interface D}.



End DecodeOutcome.



(** ** [DecodeFeatures]: a vector handed over in two parts *)



Section DecodeInParts.
Context {cfg : LyraConfig} {D : Type} {dec_if : LyraDecoder.Interface D}.



End DecodeInParts.



(** ** [EncodeFile] and [DecodeFile] *)

(** A run of [EncodeFile] that did not return [true]: its trace holds no
    save. *)
Ltac no_save :=
  split;
  [ split;
    [ let Hin := fresh "Hin" in
      intros (? & ? & ? & ? & Hin); simpl in Hin;
      repeat (destruct Hin as [Hin|Hin]; [discriminate Hin|]); destruct Hin
    | let Hbad := fresh "Hbad" in intros Hbad; discriminate Hbad ]
  | let Hbad := fresh "Hbad" in intros Hbad; discriminate Hbad ].

(** [EncodeFile] saves a feature matrix exactly when it returns [true], and
    then only after the whole of the audio was encoded: the matrix saved is
    the accumulator of an [EncodeWav] call that started from an empty
    accumulator and returned [true], under the key "features".  A failed
    read, a failed construction or a rejected window leaves no file. *)
Theorem EncodeFile_saves_only_a_complete_encoding
        {cfg : LyraConfig} {io : ContainerIO} {E : Type}
        {enc_if : LyraEncoder.Interface E} {pre : PreprocessorInterface}
        wav_path output_path ep dtx model_path :
  let res := EncodeFile (E := E) wav_path output_path ep dtx model_path in
  ((exists p key data shape, In (EvNpzSave p key data shape) (snd res))
   <-> fst res = Returned true) /\
  (fst res = Returned true ->
   exists read_wav_result,
     Read16BitWavFileToVector wav_path = Some read_wav_result /\
     let r := EncodeWav (E := E) (samples read_wav_result)
                        (num_channels read_wav_result)
                        (sample_rate_hz read_wav_result) ep dtx model_path [] in
     exit_of r = Returned true /\
     snd res = [EvReadWav wav_path; EvCreateEngine;
                EvNpzSave output_path "features"%string (output r)
                          [Z.of_nat (length (output r)) / to_size_t kNumFeatures;
                           to_size_t kNumFeatures]]).
Proof.
  intros res. unfold res, EncodeFile.
  destruct (Read16BitWavFileToVector wav_path) as [rw|].
  - cbv zeta.
    destruct (exit_of (EncodeWav _ _ _ _ _ _ _)) as [[|]| | | | |] eqn:Hexit;
      try solve [no_save].
    destruct (to_size_t kNumFeatures =? 0); [solve [no_save]|].
    split.
    + split; [reflexivity|]. intros _. do 4 eexists.
      simpl. right. right. left. reflexivity.
    + intros _. exists rw. split; [reflexivity|]. split; [exact Hexit | reflexivity].
  - no_save.
Qed.

(** The four directions of the two equivalences below, for a decoding that
    did not return [true]. *)
Ltac no_write_after Hexit :=
  split; split;
  [ let Hin := fresh "Hin" in
    intros (? & ? & ? & ? & Hin); simpl in Hin;
    destruct Hin as [Hin|[Hin|[]]]; discriminate Hin
  | let Hd := fresh "Hd" in let Hbad := fresh "Hbad" in
    intros (? & Hd & Hbad); inversion Hd; subst;
    rewrite Hexit in Hbad; discriminate Hbad
  | let Hbad := fresh "Hbad" in intros Hbad; discriminate Hbad
  | let Hd := fresh "Hd" in let Hbad := fresh "Hbad" in
    intros (? & Hd & Hbad & _); inversion Hd; subst;
    rewrite Hexit in Hbad; discriminate Hbad ].

(** A feature file of whole packets.  [DecodeFile] writes an audio file
    exactly when the decoder was constructed and [DecodeFeatures] returned
    [true] on the loaded features; it returns [true] exactly when, in
    addition, the writer reported success.  A decoder failure part-way
    leaves no audio file. *)
Theorem DecodeFile_writes_only_a_complete_decoding
        {cfg : LyraConfig} {io : ContainerIO} {D : Type}
        {dec_if : LyraDecoder.Interface D}
        encoded_path output_path sample_rate plr abl model_path :
  0 < kNumFeatures ->
  Z.of_nat (length (snd (npz_load encoded_path "features"%string)))
    mod kNumFeatures = 0 ->
  let res := DecodeFile (D := D) encoded_path output_path sample_rate plr abl model_path in
  let decoding (decoder : D) :=
      DecodeFeatures (snd (npz_load encoded_path "features"%string)) plr abl decoder [] in
  ((exists p nc sr data, In (EvWriteWav p nc sr data) (snd res))
   <-> exists decoder,
         LyraDecoder.Create sample_rate kNumChannels kBitrate model_path = Some decoder /\
         exit_of (decoding decoder) = Returned true) /\
  (fst res = Returned true
   <-> exists decoder,
         LyraDecoder.Create sample_rate kNumChannels kBitrate model_path = Some decoder /\
         exit_of (decoding decoder) = Returned true /\
         Write16BitWavFileFromVector
           output_path
           (LyraDecoder.num_channels (engine (decoding decoder)))
           (LyraDecoder.sample_rate_hz (engine (decoding decoder)))
           (output (decoding decoder)) = true).
Proof.
  intros _ _ res decoding. unfold res, DecodeFile.
  destruct (LyraDecoder.Create sample_rate kNumChannels kBitrate model_path)
    as [decoder|].
  - cbv zeta. fold (decoding decoder).
    destruct (exit_of (decoding decoder)) as [[|]| | | | |] eqn:Hexit;
      try solve [no_write_after Hexit].
    split; split.
    + intros _. exists decoder. split; [reflexivity | exact Hexit].
    + intros _. do 4 eexists. simpl. right. right. left. reflexivity.
    + simpl. intros Hret. exists decoder. split; [reflexivity|].
      split; [exact Hexit|]. now inversion Hret.
    + intros (d & Hd & _ & Hw). inversion Hd; subst d. simpl. now rewrite Hw.
  - split; split.
    + intros (p & nc & sr & data & Hin). simpl in Hin.
      destruct Hin as [Hin|[]]; discriminate Hin.
    + intros (d & Hd & _). discriminate Hd.
    + intros Hbad. discriminate Hbad.
    + intros (d & Hd & _). discriminate Hd.
Qed.

(** The scripted feature file of two packets and a decoder that rejects
    the second: no audio file is written, and the call does not return
    [true]. *)
Lemma DecodeFile_writes_only_a_complete_decoding_witness :
  let res := DecodeFile (cfg := Fixture.config 2 1) (io := Fixture.containers)
                        (dec_if := Fixture.decoder true 150 3000 50 (Some 1%nat) None)
                        "in.npz"%string "out.wav"%string 150
                        Fixture.zero32 Fixture.zero32 "model"%string in
  ~ (exists p nc sr data, In (EvWriteWav p nc sr data) (snd res)) /\
  fst res <> Returned true.
Proof.
  destruct (DecodeFile_writes_only_a_complete_decoding
              (cfg := Fixture.config 2 1) (io := Fixture.containers)
              (dec_if := Fixture.decoder true 150 3000 50 (Some 1%nat) None)
              "in.npz"%string "out.wav"%string 150
              Fixture.zero32 Fixture.zero32 "model"%string)
    as [[Hwrite _] [Hret _]]; [simpl; lia | reflexivity |].
  split.
  - intros Hin. destruct (Hwrite Hin) as (d & Hd & Hexit).
    injection Hd as <-. discriminate Hexit.
  - intros Htrue. destruct (Hret Htrue) as (d & Hd & Hexit & _).
    injection Hd as <-. discriminate Hexit.
Defined.





(** ** Encoding then decoding any buffer *)



(** ** [PacketSize]: order *)

Lemma ceil_div_monotone (a a' b b' : Z) :
  0 <= a <= a' -> 0 < b' <= b -> ceil_div a b <= ceil_div a' b'.
Proof.
  intros Ha Hb.
  pose proof (ceil_div_bounds a b ltac:(lia)) as H1.
  pose proof (ceil_div_bounds a' b' ltac:(lia)) as H2.
  set (c := ceil_div a b) in *. set (c' := ceil_div a' b') in *.
  assert (Hc' : 0 <= c').
  { destruct (Z.le_gt_cases 0 c') as [|Hneg]; [assumption|].
    assert (c' * b' <= -1 * b') by (apply Z.mul_le_mono_nonneg_r; lia). lia. }
  destruct (Z.le_gt_cases c c') as [|Hgt]; [assumption|exfalso].
  assert (c' * b' <= c' * b) by (apply Z.mul_le_mono_nonneg_l; lia).
  assert (c' * b <= (c - 1) * b) by (apply Z.mul_le_mono_nonneg_r; lia).
  lia.
Qed.

(** With one frame per packet and bit rates below 2^24, a decoder with the
    higher bit rate and the lower (positive) frame rate never gets the
    smaller packet; and a positive bit rate gets at least one byte. *)
Theorem PacketSize_grows_with_the_bits_per_frame
        {cfg : LyraConfig} {D : Type} {dec_if : LyraDecoder.Interface D}
        (d1 d2 : D) :
  kNumFramesPerPacket = 1 ->
  0 <= LyraDecoder.bitrate d1 <= LyraDecoder.bitrate d2 ->
  LyraDecoder.bitrate d2 < 2 ^ 24 ->
  0 < LyraDecoder.frame_rate d2 <= LyraDecoder.frame_rate d1 ->
  LyraDecoder.frame_rate d1 <= INT_MAX ->
  exists bytes1 bytes2,
    PacketSize d1 = CastValue bytes1 /\
    PacketSize d2 = CastValue bytes2 /\
    0 <= bytes1 <= bytes2 /\
    (0 < LyraDecoder.bitrate d1 -> 1 <= bytes1).
Proof.
  intros HK HB HB2 HF HF1.
  exists (ceil_div (LyraDecoder.bitrate d1) (8 * LyraDecoder.frame_rate d1)),
         (ceil_div (LyraDecoder.bitrate d2) (8 * LyraDecoder.frame_rate d2)).
  split; [apply PacketSize_one_frame; try assumption; lia|].
  split; [apply PacketSize_one_frame; try assumption; lia|].
  assert (HF8 : 0 < 8 * LyraDecoder.frame_rate d1) by lia.
  pose proof (ceil_div_bounds (LyraDecoder.bitrate d1) _ HF8) as Hb1.
  set (c := ceil_div (LyraDecoder.bitrate d1) (8 * LyraDecoder.frame_rate d1)) in *.
  assert (Hc : 0 <= c).
  { destruct (Z.le_gt_cases 0 c) as [|Hneg]; [assumption|].
    assert (c * (8 * LyraDecoder.frame_rate d1) <= -1 * (8 * LyraDecoder.frame_rate d1))
      by (apply Z.mul_le_mono_nonneg_r; lia).
    lia. }
  split; [split|].
  - exact Hc.
  - apply ceil_div_monotone; lia.
  - intros Hpos. destruct (Z.eq_dec c 0) as [H0|]; [|lia].
    rewrite H0 in Hb1. lia.
Qed.

(** 3000 bit/s at 50 frames per second against 6000 bit/s at 25. *)
Lemma PacketSize_grows_with_the_bits_per_frame_witness :
  exists bytes1 bytes2,
    PacketSize (cfg := Fixture.config 2 1) (dec_if := Fixture.configured_decoder)
               (3000, 50) = CastValue bytes1 /\
    PacketSize (cfg := Fixture.config 2 1) (dec_if := Fixture.configured_decoder)
               (6000, 25) = CastValue bytes2 /\
    0 <= bytes1 <= bytes2 /\
    (0 < 3000 -> 1 <= bytes1).
Proof.
  apply (PacketSize_grows_with_the_bits_per_frame (cfg := Fixture.config 2 1)
           (dec_if := Fixture.configured_decoder) (3000, 50) (6000, 25)).
  - reflexivity.
  - simpl. lia.
  - simpl. lia.
  - simpl. lia.
  - unfold INT_MAX. simpl. lia.
Defined.

(** ** [EncodeWav]: the trailing samples *)

Lemma window_firstn {A : Type} (n j limit : nat) (data : list A) :
  (j * n + n <= limit)%nat ->
  window n (firstn limit data) j = window n data j.
Proof.
  intros Hfit. unfold window.
  rewrite skipn_firstn_comm, firstn_firstn. f_equal. lia.
Qed.

Section TrailingSamples.
Context {cfg : LyraConfig} {E : Type} {enc_if : LyraEncoder.Interface E}
        {pre : PreprocessorInterface}.

(** The loop on a buffer and on the buffer cut after its last whole window
    runs the same way. *)
Lemma EncodeLoop_cut data (n : nat) :
  (0 < n)%nat ->
  forall count j e out fuel fuel',
    ((j + count) * n <= length data)%nat ->
    (length data < (j + count) * n + n)%nat ->
    (count < fuel)%nat -> (count < fuel')%nat ->
    EncodeLoop fuel e data (Z.of_nat n) (Z.of_nat (j * n)) out
    = EncodeLoop fuel' e (firstn ((j + count) * n) data) (Z.of_nat n)
                 (Z.of_nat (j * n)) out.
Proof.
  intros Hn. induction count as [|count IH];
    intros j e out fuel fuel' Hlo Hhi Hfuel Hfuel'.
  - destruct fuel as [|fuel]; [lia|]. destruct fuel' as [|fuel']; [lia|].
    rewrite !EncodeLoop_step_end; [reflexivity | | lia].
    rewrite length_firstn. lia.
  - destruct fuel as [|fuel]; [lia|]. destruct fuel' as [|fuel']; [lia|].
    assert (Hcut : length (firstn ((j + S count) * n) data) = ((j + S count) * n)%nat)
      by (rewrite length_firstn; lia).
    assert (Hwin : window n (firstn ((j + S count) * n) data) j = window n data j)
      by (apply window_firstn; nia).
    destruct (LyraEncoder.EncodeRaw e (window n data j)) as [[p|] e1] eqn:Hraw.
    + rewrite EncodeLoop_step_ok with (p := p) (e' := e1) by (try assumption; nia).
      rewrite EncodeLoop_step_ok with (p := p) (e' := e1) (data := firstn _ data);
        [| rewrite Hcut; nia | assumption | rewrite Hwin; exact Hraw].
      replace ((j + S count) * n)%nat with ((S j + count) * n)%nat by lia.
      apply IH; lia.
    + rewrite EncodeLoop_step_fail with (e' := e1) by (try assumption; nia).
      rewrite EncodeLoop_step_fail with (e' := e1) (data := firstn _ data);
        [reflexivity | rewrite Hcut; nia | assumption | rewrite Hwin; exact Hraw].
Qed.

End TrailingSamples.

(** The samples after the last whole window have no influence on
    [EncodeWav], whatever the engine does: a second buffer that is (after
    preprocessing) the first one cut after its last whole window gives the
    same exit, the same accumulator and the same engine state. *)
Theorem EncodeWav_ignores_the_trailing_samples
        {cfg : LyraConfig} {E : Type} {enc_if : LyraEncoder.Interface E}
        {pre : PreprocessorInterface}
        wav wav' nc sr ep dtx mp out encoder (n : Z) :
  LyraEncoder.Create sr nc kBitrate dtx mp = Some encoder ->
  encoder_samples_per_packet sr encoder = Some n ->
  0 < n ->
  processed ep wav' sr
  = firstn (Z.to_nat (Z.of_nat (length (processed ep wav sr)) / n * n))
           (processed ep wav sr) ->
  EncodeWav wav' nc sr ep dtx mp out = EncodeWav wav nc sr ep dtx mp out.
Proof.
  intros Hcreate Hn Hpos Hcut.
  set (data := processed ep wav sr) in *.
  set (k := Z.to_nat n).
  set (m := (length data / k)%nat).
  assert (Hlo : (m * k <= length data)%nat).
  { unfold m. rewrite Nat.mul_comm. apply Nat.Div0.mul_div_le. }
  assert (Hhi : (length data < m * k + k)%nat).
  { unfold m. pose proof (Nat.mul_succ_div_gt (length data) k ltac:(lia)). lia. }
  assert (Hlimit : Z.to_nat (Z.of_nat (length data) / n * n) = (m * k)%nat).
  { unfold m, k. rewrite <- (Z2Nat.id n) at 1 2 by lia.
    rewrite <- Nat2Z.inj_div, <- Nat2Z.inj_mul, Nat2Z.id. reflexivity. }
  rewrite Hlimit in Hcut.
  unfold EncodeWav. rewrite Hcreate, Hn, Hcut. fold data. cbv zeta.
  replace n with (Z.of_nat k) by (unfold k; lia).
  change 0 with (Z.of_nat (0 * k)).
  rewrite (EncodeLoop_cut data k ltac:(lia) m 0%nat encoder out
             (S (length data)) (S (length (firstn (m * k) data))));
    try (simpl; nia).
  - reflexivity.
  - rewrite length_firstn. simpl. nia.
Qed.

(** Seven samples against their first six, three per packet. *)
Lemma EncodeWav_ignores_the_trailing_samples_witness :
  EncodeWav (cfg := Fixture.config 2 1) (enc_if := Fixture.encoder true 50 (Some 1%nat))
            (pre := Fixture.identity_preprocessor)
            [1; 2; 3; 4; 5; 6] 1 150 false false "model"%string []
  = EncodeWav (cfg := Fixture.config 2 1)
              (enc_if := Fixture.encoder true 50 (Some 1%nat))
              (pre := Fixture.identity_preprocessor)
              [1; 2; 3; 4; 5; 6; 7] 1 150 false false "model"%string [].
Proof.
  apply (EncodeWav_ignores_the_trailing_samples (cfg := Fixture.config 2 1)
           (enc_if := Fixture.encoder true 50 (Some 1%nat))
           (pre := Fixture.identity_preprocessor)
           [1; 2; 3; 4; 5; 6; 7] [1; 2; 3; 4; 5; 6] 1 150 false false
           "model"%string [] O 3).
  - reflexivity.
  - reflexivity.
  - lia.
  - reflexivity.
Defined.
